(** * web3-batch-call: the batching engine and its ABI cache

    A shallow embedding of the two engines of the repository:

    - [Legacy]   : the class of [src/batchCall.js] (one read per method, the
                   ABI cache kept in instance fields, per-call errors reject);
    - [Sampling] : the class of [src/unnamed/part_000] (block sampling,
                   constant filtering, response flattening, an external
                   [AbiStorage] store).

    JavaScript objects used as dictionaries are [gmap string _]; arrays are
    lists; a property that may be missing is an [option]; numbers are
    integers.  Asynchronous code is modelled by the order in which the
    JavaScript run-to-completion rule executes it: an async function runs
    synchronously up to its first [await], so the whole expansion of a batch
    (every [map] over groups, addresses, methods and blocks) happens in one
    synchronous job, and every statement written after an [await] runs only
    once that job has ended.  One [execute] runs at a time on an engine.

    [execute] is a function from the engine's state to a result (a value or
    an exception), the state afterwards, and the trace of what it did to the
    outside: fetches of ABIs, requests added to the batch, the flush of the
    batch, log lines.  The state after an exception is the state once every
    pending callback has fired.

    The collaborators (the web3 contract binding, the digest, the remote ABI
    service, string conversion) are parameters.  Of the binding, only
    [request] is allowed to throw, which is what the [try] of
    [addBlockToBatch] is there for; addresses and method names are taken not
    to be property paths or names of [Object.prototype]. *)

From Stdlib Require Import ZArith Lia.
From stdpp Require Import gmap strings list fin_maps sorting pretty.

Open Scope string_scope.
Open Scope list_scope.
Open Scope Z_scope.

(** ** JavaScript values carried through the engine *)

#[warnings="-register-all"]
Inductive jsval :=
| JUndefined
| JNull
| JBool (b : bool)
| JNum (n : Z)
| JStr (s : string)
| JArr (l : list jsval)
| JObj (l : list (string * jsval)).

(** [if (v)] *)
Definition truthy (v : jsval) : bool :=
  match v with
  | JUndefined | JNull => false
  | JBool b => b
  | JNum n => negb (n =? 0)
  | JStr s => negb (String.eqb s "")
  | JArr _ | JObj _ => true
  end.

(** [if (s)] for a string that may be undefined. *)
Definition truthy_str (s : option string) : bool :=
  match s with
  | Some s => negb (String.eqb s "")
  | None => false
  end.

(** ** Errors and results *)

Inductive error :=
| ConfigurationError          (* "No etherscan API key set ser! ..." *)
| RemoteLookupError           (* "Etherscan error" *)
| TypeError                   (* property access on undefined and the like *)
| TransportError (msg : string).

Inductive result (A : Type) :=
| Ok (a : A)
| Threw (e : error).
Arguments Ok {A} a.
Arguments Threw {A} e.

Definition result_bind {A B} (r : result A) (k : A → result B) : result B :=
  match r with
  | Ok a => k a
  | Threw e => Threw e
  end.

Fixpoint result_mapM {A B} (f : A → result B) (l : list A) : result (list B) :=
  match l with
  | [] => Ok []
  | x :: l' =>
      result_bind (f x) (λ y, result_bind (result_mapM f l') (λ ys, Ok (y :: ys)))
  end.

Fixpoint result_foldM {A B} (f : B → A → result B) (l : list A) (acc : B)
  : result B :=
  match l with
  | [] => Ok acc
  | x :: l' => result_bind (f acc x) (result_foldM f l')
  end.

(** ** ABIs, requests and calls *)

Record Param := { p_name : string; p_type : string }.

Record AbiField := {
  f_name : option string;
  f_inputs : list Param;             (* a missing [inputs] has [_.size] 0 *)
  f_outputs : list Param;
  f_stateMutability : option string;
  f_constant : bool;
}.

Abbreviation ABI := (list AbiField).

Record MethodSpec := {
  m_name : string;
  m_args : option (list jsval);
  m_constant : bool;                 (* truthiness of [method.constant] *)
}.

Record BoundContract := {
  bc_address : string;               (* item.options.address *)
  bc_jsonInterface : ABI;            (* item.options.jsonInterface *)
}.

Record ContractGroup := {
  g_addresses : option (list string);
  g_contracts : option (list BoundContract);
  g_namespace : option string;
  g_readMethods : option (list MethodSpec);
  g_allReadMethods : bool;
  g_abi : option ABI;
}.

(** A request added to the batch: the call descriptor. *)
Record Call := {
  c_address : string;
  c_method : string;
  c_args : list jsval;
  c_block : option Z;
}.

(** What the transport hands to the completion callback [(err, data)]. *)
Record Reply := { rp_err : option string; rp_data : jsval }.

(** The contract-call collaborator (web3), at its interface. *)
Record Web3 := {
  getBlockNumber : Z;
  (* [_.get(contract.methods, name)] is truthy, for a contract built from
     this ABI *)
  methodExists : option ABI → string → bool;
  encodeFunctionCall : AbiField → list jsval → string;
  (* [methodCall.request(...)] throws *)
  requestThrows : Call → bool;
  respond : Call → Reply;
}.

Inductive logline :=
| LogCallFailed (address name : string)   (* "[BatchCall] a: method call failed: n" *)
| LogMethodErr                            (* "method err" *)
| LogSummary (numberOfMethods : nat).

Inductive event :=
| EvFetch (address : string)              (* GET to the remote ABI service *)
| EvDelay (ms : Z)
| EvBatchAdd (c : Call)
| EvBatchExecute
| EvLog (l : logline).

(** ** A state, error and trace monad for the stateful parts *)

Definition M (S A : Type) : Type := S → result A * S * list event.

Definition ret {S A} (a : A) : M S A := λ s, (Ok a, s, []).
Definition throw {S A} (e : error) : M S A := λ s, (Threw e, s, []).
Definition bind {S A B} (m : M S A) (k : A → M S B) : M S B :=
  λ s, match m s with
       | (Ok a, s1, t1) => let '(r, s2, t2) := k a s1 in (r, s2, t1 ++ t2)
       | (Threw e, s1, t1) => (Threw e, s1, t1)
       end.
Definition get {S} : M S S := λ s, (Ok s, s, []).
Definition modify {S} (f : S → S) : M S unit := λ s, (Ok tt, f s, []).
Definition emit {S} (t : list event) : M S unit := λ s, (Ok tt, s, t).
Definition liftResult {S A} (r : result A) : M S A := λ s, (r, s, []).
Definition when {S} (b : bool) (m : M S unit) : M S unit :=
  if b then m else ret tt.

#[global] Instance M_ret {S} : MRet (M S) := λ A, ret.
#[global] Instance M_bind {S} : MBind (M S) := λ A B k m, bind m k.

(** [for (const x of l) { await f(x) }] *)
Fixpoint forM_ {S A} (l : list A) (f : A → M S unit) : M S unit :=
  match l with
  | [] => ret tt
  | x :: l' => f x ;; forM_ l' f
  end.

(** ** The ABI cache ([src/batchCall.js], lines 249-309) *)

Record AbiCache := {
  abiHashByAddress : gmap string string;
  abiByHash : gmap string ABI;
}.

Definition emptyCache : AbiCache :=
  {| abiHashByAddress := ∅; abiByHash := ∅ |}.

Section Cache.
(** The digest and the remote ABI service are collaborators. *)
Variable md5 : ABI → string.
Variable etherscan : string → string → option ABI.   (* address, key *)

Variable etherscanApiKey : option string.
Variable etherscanDelayTime : Z.

(** A missing address makes [abiHash] undefined, and [abiByHash[undefined]]
    reads the property named "undefined". *)
Definition getAbiFromCache (c : AbiCache) (address : string) : option ABI :=
  let abiHash := default "undefined" (abiHashByAddress c !! address) in
  abiByHash c !! abiHash.

Definition cacheAbi (address : string) (newAbi : ABI) (c : AbiCache)
  : AbiCache :=
  let abiHash := md5 newAbi in
  {| abiByHash := <[abiHash := newAbi]> (abiByHash c);
     abiHashByAddress := <[address := abiHash]> (abiHashByAddress c) |}.

Definition fetchAbi (address : string) : M AbiCache ABI :=
  match etherscanApiKey with
  | None => throw ConfigurationError
  | Some key =>
      emit [EvFetch address] ;;
      match etherscan address key with
      | Some abi => ret abi
      | None => throw RemoteLookupError
      end
  end.

Definition addAbiToCache (address : string) (providedAbi : option ABI)
  : M AbiCache unit :=
  c ← get ;
  let cachedAbi := getAbiFromCache c address in
  match providedAbi with
  | Some abi => modify (cacheAbi address abi)
  | None =>
      match cachedAbi with
      | Some _ => ret tt
      | None =>
          abi ← fetchAbi address ;
          modify (cacheAbi address abi) ;;
          emit [EvDelay etherscanDelayTime]
      end
  end.

Definition readable (field : AbiField) : bool :=
  let hasInputs := (0 <? length (f_inputs field))%nat in
  let hasOutputs := (0 <? length (f_outputs field))%nat in
  let viewable := bool_decide (f_stateMutability field = Some "view") in
  negb hasInputs && hasOutputs && truthy_str (f_name field) && viewable.

Definition getReadableAbiFields (c : AbiCache) (address : string)
  : list string :=
  let abi := default [] (getAbiFromCache c address) in
  omap (λ field, if readable field then f_name field else None) abi.

(** [addAbis] and the loop over the batch that calls it. *)
Definition addAbis (contractBatch : ContractGroup) : M AbiCache unit :=
  match g_addresses contractBatch with
  | None => throw TypeError           (* undefined is not iterable *)
  | Some addresses =>
      forM_ addresses (λ address, addAbiToCache address (g_abi contractBatch))
  end.

Definition warmUp (contractsBatch : list ContractGroup) : M AbiCache unit :=
  forM_ contractsBatch (λ contractBatch,
    match g_contracts contractBatch with
    | None => addAbis contractBatch
    | Some _ => ret tt
    end).
End Cache.

(** ** The result tree *)

Record BlockSample := { bs_value : jsval; bs_blockNumber : Z }.

(** One bucket of a method entry: [{ value | values, input?, args? }].
    [None] is a property that is not there. *)
Record MethodArg := {
  ma_value : option jsval;
  ma_values : option (list (option BlockSample));
  ma_input : option string;
  ma_args : option (list jsval);
}.

(** What a property of an address node can hold. *)
Inductive field :=
| FStr (s : string)                          (* address, namespace *)
| FBuckets (l : list MethodArg)              (* a method entry *)
| FValue (v : jsval)                         (* a collapsed method entry *)
| FSamples (l : list (option BlockSample))   (* the per-block fallback *)
| FUndefined.

Abbreviation Node := (gmap string field).

(** What one method read resolves to. *)
Record CallResult := {
  r_method : string;
  r_value : option jsval;
  r_values : option (list (option BlockSample));
  r_input : option string;
  r_args : option (list jsval);
}.

(** What [addAddressToBatch] resolves to; [None] in [ac_state] is the
    undefined of a skipped method. *)
Record AddressCall := {
  ac_address : string;
  ac_namespace : string;
  ac_state : list (option CallResult);
}.

Inductive response :=
| Flat (tree : list Node)
| Grouped (byNamespace : gmap string (list Node))
| ErrorValue (e : error).                    (* { error: err.message } *)

(** ** Folding results into the tree ([formatContractsState]) *)

(** [_.find(abi, { name })] *)
Definition findAbiMethod (abi : option ABI) (name : string) : option AbiField :=
  List.find (λ f, bool_decide (f_name f = Some name)) (default [] abi).

(** The predicate of [_.find(acc, { address })]. *)
Definition hasAddress (address : string) (n : Node) : bool :=
  match n !! "address" with
  | Some (FStr s) => String.eqb s address
  | _ => false
  end.

(** The predicate of [_.find(methodArgs, { input })]: a strict comparison,
    and an undefined [input] only matches a bucket that has the property. *)
Definition sameInput (input : option string) (ma : MethodArg) : bool :=
  match input, ma_input ma with
  | Some i, Some j => String.eqb i j
  | _, _ => false
  end.

Definition mkMethodArg (r : CallResult) : MethodArg :=
  {| ma_value := r_value r;
     ma_values := r_values r;
     ma_input := if truthy_str (r_input r) then r_input r else None;
     ma_args := r_args r |}.

Definition newAddressResult (address namespace method : string)
    (methodArg : MethodArg) : Node :=
  <[method := FBuckets [methodArg]]>
    (<["namespace" := FStr namespace]> (<["address" := FStr address]> ∅)).

(** The update of a node that is already in the tree.  A string property
    under the method's name (a method called "address" or "namespace") has
    no [push]; collapsed shapes only exist after [flattenArgs], which runs on
    the finished tree. *)
Definition mergeMethodArg (addressResult : Node) (r : CallResult)
  : result Node :=
  let method := r_method r in
  let methodArg := mkMethodArg r in
  let merge (methodArgs : list MethodArg) :=
    let existingMethodInput := List.find (sameInput (r_input r)) methodArgs in
    let n1 := match existingMethodInput with
              | None => <[method := FBuckets (methodArgs ++ [methodArg])]> addressResult
              | Some _ => addressResult
              end in
    if truthy_str (r_input r) then n1
    else <[method := FBuckets [methodArg]]> n1 in
  match addressResult !! method with
  | None | Some FUndefined => Ok (merge [])
  | Some (FBuckets methodArgs) => Ok (merge methodArgs)
  | Some (FStr _) | Some (FValue _) | Some (FSamples _) => Threw TypeError
  end.

Definition addMethodResults (address namespace : string) (acc : list Node)
    (callResult : option CallResult) : result (list Node) :=
  match callResult with
  | None => Ok acc
  | Some r =>
      match list_find (λ n, hasAddress address n = true) acc with
      | Some (i, addressResult) =>
          result_bind (mergeMethodArg addressResult r)
            (λ n, Ok (<[i := n]> acc))
      | None =>
          Ok (acc ++ [newAddressResult address namespace (r_method r)
                        (mkMethodArg r)])
      end
  end.

Definition addAddressCalls (acc : list Node) (addressCall : AddressCall)
  : result (list Node) :=
  result_foldM (addMethodResults (ac_address addressCall)
                  (ac_namespace addressCall))
    (ac_state addressCall) acc.

Definition formatContractsState (acc : list Node)
    (contractConfig : list AddressCall) : result (list Node) :=
  result_foldM addAddressCalls contractConfig acc.

(** [_.reduce(contractsPromiseResult, formatContractsState, [])] *)
Definition reduceContractsState (contractsPromiseResult : list (list AddressCall))
  : result (list Node) :=
  result_foldM formatContractsState contractsPromiseResult [].

(** ** Grouping by namespace *)

Section Grouping.
(** [String(v)] of the JavaScript runtime, for a call's return data. *)
Variable toString : jsval → string.

Definition sampleToString (s : option BlockSample) : string :=
  match s with
  | Some _ => "[object Object]"
  | None => ""
  end.

(** The property key that [_.groupBy(tree, "namespace")] derives from a
    node: the string itself, or the string conversion of whatever else the
    property holds. *)
Definition namespaceKey (contract : Node) : string :=
  match contract !! "namespace" with
  | Some (FStr s) => s
  | Some (FBuckets l) =>
      String.concat "," (map (λ _, "[object Object]") l)
  | Some (FSamples l) => String.concat "," (map sampleToString l)
  | Some (FValue v) => toString v
  | Some FUndefined | None => "undefined"
  end.

Definition groupBy (tree : list Node) : gmap string (list Node) :=
  foldl (λ acc contract,
           let key := namespaceKey contract in
           <[key := default [] (acc !! key) ++ [contract]]> acc)
    ∅ tree.

Definition omitNamespace (contract : Node) : Node :=
  delete "namespace" contract.

(** [_.reduce(contractsStateByNamespace, removeNamespaceKey, {})] *)
Definition removeNamespaceKeys (byNamespace : gmap string (list Node))
  : gmap string (list Node) :=
  map omitNamespace <$> byNamespace.

Definition groupByNamespaceTree (tree : list Node) : gmap string (list Node) :=
  removeNamespaceKeys (groupBy tree).
End Grouping.

(** ** Pieces shared by the two engines *)

(** An element of [addresses || contracts]: [item.options] is there for a
    bound contract and undefined for an address string. *)
Inductive Item :=
| ItemAddress (address : string)
| ItemContract (contract : BoundContract).

(** [addresses || contracts] (an empty array is truthy). *)
Definition objectToIterateOver (contractConfig : ContractGroup)
  : option (list Item) :=
  match g_addresses contractConfig with
  | Some addresses => Some (map ItemAddress addresses)
  | None => map ItemContract <$> g_contracts contractConfig
  end.

(** How a promise settles.  A rejection is synchronous when it happens
    while the batch is still being expanded (an exception before the first
    [await], or in a promise executor), and asynchronous when it happens in a
    completion callback, after the batch was flushed. *)
Inductive Settled (A : Type) :=
| Resolved (a : A)
| Rejected (sync : bool) (e : error).
Arguments Resolved {A} a.
Arguments Rejected {A} sync e.

Definition syncRejection {A} (s : Settled A) : option error :=
  match s with
  | Rejected true e => Some e
  | _ => None
  end.

Fixpoint allResolved {A} (l : list (Settled A)) : Settled (list A) :=
  match l with
  | [] => Resolved []
  | Resolved a :: l' =>
      match allResolved l' with
      | Resolved as' => Resolved (a :: as')
      | Rejected sync e => Rejected sync e
      end
  | Rejected sync e :: _ => Rejected sync e
  end.

(** [Promise.all]: the values in order, or the rejection that comes first in
    time: a synchronous one if there is any, else the first callback to
    fail (the transport calls the callbacks in the order of the batch). *)
Definition promiseAll {A} (l : list (Settled A)) : Settled (list A) :=
  match head (omap syncRejection l) with
  | Some e => Rejected true e
  | None => allResolved l
  end.

(** What expanding one method leaves behind: how its promise settles, what
    happened synchronously (requests added to the batch, the log of the
    catch arm), what the completion callbacks log later, and its share of
    [numberOfMethods]. *)
Record MethodExpansion := {
  me_settled : Settled (option CallResult);
  me_sync : list event;
  me_callbacks : list event;
  me_counted : nat;
}.

Record AddressExpansion := {
  ae_address : string;
  ae_namespace : string;
  ae_methods : list MethodExpansion;
}.

Definition ae_settled (a : AddressExpansion) : Settled AddressCall :=
  match promiseAll (map me_settled (ae_methods a)) with
  | Resolved state =>
      Resolved {| ac_address := ae_address a;
                  ac_namespace := ae_namespace a;
                  ac_state := state |}
  | Rejected sync e => Rejected sync e
  end.

(** A group's promise: rejected at once when there is nothing to iterate
    over. *)
Definition group_settled (g : option (list AddressExpansion))
  : Settled (list AddressCall) :=
  match g with
  | None => Rejected true TypeError
  | Some addresses => promiseAll (map ae_settled addresses)
  end.

Definition group_methods (g : option (list AddressExpansion))
  : list MethodExpansion :=
  concat (map ae_methods (default [] g)).

Definition formatField (name : string) : MethodSpec :=
  {| m_name := name; m_args := None; m_constant := false |}.

Module Legacy.
(** *** [src/batchCall.js] *)

Record Engine := {
  web3 : Web3;
  etherscanApiKey : option string;
  etherscanDelayTime : Z;
  cache : AbiCache;                 (* abiHashByAddress, abiByHash *)
  groupByNamespace : bool;
  clearMemoryAfterExecution : bool;
  logging : bool;
}.

Definition setCache (c : AbiCache) (e : Engine) : Engine :=
  {| web3 := web3 e;
     etherscanApiKey := etherscanApiKey e;
     etherscanDelayTime := etherscanDelayTime e;
     cache := c;
     groupByNamespace := groupByNamespace e;
     clearMemoryAfterExecution := clearMemoryAfterExecution e;
     logging := logging e |}.

(** Runs an action of the cache on the engine's own fields. *)
Definition onCache {A} (m : M AbiCache A) : M Engine A :=
  λ e, let '(r, c, t) := m (cache e) in (r, setCache c e, t).

Section Execute.
Variable md5 : ABI → string.
Variable etherscan : string → string → option ABI.
Variable toString : jsval → string.

Section Expansion.
Variable this : Engine.
(** [if (blockNumber)] has already been taken: [None] is a falsy block. *)
Variable blockNumber : option Z.

(** [addMethodToBatch] (lines 104-140).  The body is a promise executor:
    an exception of [request] rejects the promise at once; the callback
    rejects it on an error, and otherwise resolves it with the encoded
    input, which needs the ABI entry of the method when arguments were
    given (an exception in the callback comes back to it as an error). *)
Definition addMethodToBatch (abi : option ABI) (address : string)
    (method : MethodSpec) : MethodExpansion :=
  let name := m_name method in
  let args := m_args method in
  if negb (methodExists (web3 this) abi name) then
    {| me_settled := Resolved None; me_sync := [];
       me_callbacks := []; me_counted := 0 |}
  else
    let req := {| c_address := address; c_method := name;
                  c_args := default [] args; c_block := blockNumber |} in
    if requestThrows (web3 this) req then
      {| me_settled := Rejected true TypeError; me_sync := [];
         me_callbacks := []; me_counted := 1 |}
    else
      let reply := respond (web3 this) req in
      let returnResponse :=
        match rp_err reply with
        | Some err => Rejected false (TransportError err)
        | None =>
            match args with
            | None =>
                Resolved (Some {| r_method := name;
                                  r_value := Some (rp_data reply);
                                  r_values := None;
                                  r_input := None; r_args := None |})
            | Some args' =>
                match findAbiMethod abi name with
                | Some abiMethod =>
                    Resolved (Some
                      {| r_method := name;
                         r_value := Some (rp_data reply);
                         r_values := None;
                         r_input := Some (encodeFunctionCall (web3 this)
                                            abiMethod args');
                         r_args := Some args' |})
                | None => Rejected false TypeError
                end
            end
        end in
      {| me_settled := returnResponse; me_sync := [EvBatchAdd req];
         me_callbacks := []; me_counted := 1 |}.

Definition addAddressToBatch (readMethods : list MethodSpec)
    (allReadMethods : bool) (namespace : string) (item : Item)
  : AddressExpansion :=
  let '(address, abi) :=
    match item with
    | ItemContract c => (bc_address c, Some (bc_jsonInterface c))
    | ItemAddress a => (a, getAbiFromCache (cache this) a)
    end in
  let allFields :=
    if allReadMethods
    then map formatField (getReadableAbiFields (cache this) address)
    else [] in
  let allMethods := readMethods ++ allFields in
  {| ae_address := address; ae_namespace := namespace;
     ae_methods := map (addMethodToBatch abi address) allMethods |}.

Definition addContractToBatch (contractConfig : ContractGroup)
  : option (list AddressExpansion) :=
  map (addAddressToBatch (default [] (g_readMethods contractConfig))
         (g_allReadMethods contractConfig)
         (default "default" (g_namespace contractConfig)))
    <$> objectToIterateOver contractConfig.
End Expansion.

Definition clearMemory (e : Engine) : Engine := setCache emptyCache e.

(** [execute] (lines 41-247): the warm-up of the cache, which may throw;
    the expansion of the batch and its flush; then, inside the [try], the
    join of the promises and the fold, whose exceptions become the error
    value that is returned. *)
Definition execute (contractsBatch : list ContractGroup)
    (blockNumber : option Z) : M Engine response :=
  this ← get ;
  onCache (warmUp md5 etherscan (etherscanApiKey this)
             (etherscanDelayTime this) contractsBatch) ;;
  this ← get ;
  let block := match blockNumber with
               | Some n => if n =? 0 then None else Some n
               | None => None
               end in
  let contracts := map (addContractToBatch this block) contractsBatch in
  let methods := concat (map group_methods contracts) in
  emit (concat (map me_sync methods)) ;;
  emit [EvBatchExecute] ;;
  match promiseAll (map group_settled contracts) with
  | Rejected _ err => mret (ErrorValue err)
  | Resolved contractsPromiseResult =>
      match reduceContractsState contractsPromiseResult with
      | Threw err => mret (ErrorValue err)
      | Ok contractsState =>
          when (clearMemoryAfterExecution this) (modify clearMemory) ;;
          when (logging this)
            (emit [EvLog (LogSummary (sum_list (map me_counted methods)))]) ;;
          mret (if groupByNamespace this
                then Grouped (groupByNamespaceTree toString contractsState)
                else Flat contractsState)
      end
  end.
End Execute.
End Legacy.

Module Sampling.
(** *** [src/unnamed/part_000] *)

Record Engine := {
  web3 : Web3;
  etherscanApiKey : option string;
  etherscanDelayTime : Z;
  groupByNamespace : bool;
  logging : bool;
  simplifyResponse : bool;
  readContracts : gset string;      (* the keys set to true *)
  store : AbiCache;
}.

Record CallOptions := {
  blockHeight : option Z;
  blockResolution : option Z;
}.

Definition setStore (c : AbiCache) (e : Engine) : Engine :=
  {| web3 := web3 e;
     etherscanApiKey := etherscanApiKey e;
     etherscanDelayTime := etherscanDelayTime e;
     groupByNamespace := groupByNamespace e;
     logging := logging e;
     simplifyResponse := simplifyResponse e;
     readContracts := readContracts e;
     store := c |}.

Definition setReadContracts (rc : gset string) (e : Engine) : Engine :=
  {| web3 := web3 e;
     etherscanApiKey := etherscanApiKey e;
     etherscanDelayTime := etherscanDelayTime e;
     groupByNamespace := groupByNamespace e;
     logging := logging e;
     simplifyResponse := simplifyResponse e;
     readContracts := rc;
     store := store e |}.

Definition onStore {A} (m : M AbiCache A) : M Engine A :=
  λ e, let '(r, c, t) := m (store e) in (r, setStore c e, t).

(** The [while] loop that builds [blocks]; it does not end when the
    iterator never reaches [blockHeight]. *)
Fixpoint blocksLoop (fuel : nat)
    (currentBlockNumber blockHeight blockResolution : Z)
    (blockNumberIterator : Z) (blocks : list Z) : option (list Z) :=
  match fuel with
  | O => None
  | S fuel' =>
      if blockNumberIterator <? blockHeight then
        let blockNumber := currentBlockNumber - blockNumberIterator in
        blocksLoop fuel' currentBlockNumber blockHeight blockResolution
          (blockNumberIterator + blockResolution) (blocks ++ [blockNumber])
      else Some blocks
  end.

Definition buildBlocks (fuel : nat)
    (currentBlockNumber blockHeight blockResolution : Z) : option (list Z) :=
  reverse <$> blocksLoop fuel currentBlockNumber blockHeight blockResolution 0 [].

(** What one [addBlockToBatch] leaves behind. *)
Record BlockExpansion := {
  be_sample : option BlockSample;   (* undefined after the catch arm *)
  be_sync : list event;
  be_callbacks : list event;
  be_counted : nat;
}.

(** **** Post-processing: [flattenArgs] *)

Definition flattenVal (value : MethodArg) : result MethodArg :=
  match ma_values value with
  | Some [innerVal] =>
      match innerVal with
      | Some sample =>
          Ok {| ma_value := Some (bs_value sample);
                ma_values := None;
                ma_input := ma_input value;
                ma_args := ma_args value |}
      | None => Threw TypeError
      end
  | _ => Ok value
  end.

Definition flattenArg (simplifyResponse : bool) (values : field)
  : result field :=
  match values with
  | FBuckets l =>
      result_bind (result_mapM flattenVal l) (λ l',
        match l' with
        | [bucket] =>
            if simplifyResponse then
              let value := default JUndefined (ma_value bucket) in
              if truthy value then Ok (FValue value)
              else Ok (match ma_values bucket with
                       | Some innerVals => FSamples innerVals
                       | None => FUndefined
                       end)
            else Ok (FBuckets l')
        | _ => Ok (FBuckets l')
        end)
  | _ => Ok values
  end.

Definition isOk {A} (r : result A) : bool :=
  match r with
  | Ok _ => true
  | Threw _ => false
  end.

Definition okValue {A} (r : result A) : option A :=
  match r with
  | Ok a => Some a
  | Threw _ => None
  end.

(** [_.each(contract, flattenArg)]: every property is rewritten on its own;
    the only exception there is is a TypeError. *)
Definition flattenArgs (simplifyResponse : bool) (contract : Node)
  : result Node :=
  let flattened := flattenArg simplifyResponse <$> contract in
  if decide (map_Forall (λ _ r, isOk r = true) flattened)
  then Ok (omap okValue flattened)
  else Threw TypeError.

(** **** The store *)

(** Modelled from the spec: the class [AbiStorage] of [./utils/abiStorage],
    of which [this.store] is an instance, is not among the sources.  Its
    [addAbiToCache] is the [ensure] of section 4.1 of the specification: a
    supplied ABI is cached unconditionally; otherwise, if nothing is cached,
    the ABI is fetched, cached, and the fetch delay applied; otherwise
    nothing happens.  This is the [addAbiToCache] of [src/batchCall.js]; the
    store is constructed with the engine's credential, and its delay is
    taken to be the engine's. *)
Definition storeAddAbiToCache (md5 : ABI → string)
    (etherscan : string → string → option ABI)
    (etherscanApiKey : option string) (etherscanDelayTime : Z)
    (address : string) (abi : option ABI) : M AbiCache unit :=
  addAbiToCache md5 etherscan etherscanApiKey etherscanDelayTime address abi.

(** Modelled from the spec: [getAbiFromCache] of the missing [AbiStorage],
    the [get] of section 4.1: the ABI cached for the address, or absent. *)
Definition storeGetAbiFromCache (s : AbiCache) (address : string)
  : option ABI :=
  getAbiFromCache s address.

(** Modelled from the spec: [getReadableAbiFields] of the missing
    [AbiStorage], the [listReadableFields] of section 4.1: the names of the
    cached ABI's fields with no input, an output, a name and the state
    mutability "view"; empty if nothing is cached. *)
Definition storeGetReadableAbiFields (s : AbiCache) (address : string)
  : list string :=
  getReadableAbiFields s address.

Section Execute.
Variable md5 : ABI → string.
Variable etherscan : string → string → option ABI.
Variable toString : jsval → string.

(** [addAbis] and the loop of [execute] that calls it (lines 273-285). *)
Definition addAbis (this : Engine) (contractBatch : ContractGroup)
  : M AbiCache unit :=
  match g_addresses contractBatch with
  | None => throw TypeError           (* undefined is not iterable *)
  | Some addresses =>
      forM_ addresses (λ address,
        storeAddAbiToCache md5 etherscan (etherscanApiKey this)
          (etherscanDelayTime this) address (g_abi contractBatch))
  end.

Definition buildAbis (this : Engine) (contractsBatch : list ContractGroup)
  : M AbiCache unit :=
  forM_ contractsBatch (λ contractBatch,
    match g_contracts contractBatch with
    | None => addAbis this contractBatch
    | Some _ => ret tt
    end).

Section Expansion.
Variable this : Engine.
Variable blocks : list Z.

(** [addBlockToBatch] (lines 144-179): the promise resolves with
    [{ value: data, blockNumber }] when the callback fires, whatever the
    callback's [err], and with undefined when [request] throws. *)
Definition addBlockToBatch (address name : string) (newArgs : list jsval)
    (blockNumber : Z) : BlockExpansion :=
  let req := {| c_address := address; c_method := name;
                c_args := newArgs; c_block := Some blockNumber |} in
  if requestThrows (web3 this) req then
    {| be_sample := None; be_sync := [EvLog LogMethodErr];
       be_callbacks := []; be_counted := 0 |}
  else
    let reply := respond (web3 this) req in
    {| be_sample := Some {| bs_value := rp_data reply;
                            bs_blockNumber := blockNumber |};
       be_sync := [EvBatchAdd req];
       be_callbacks :=
         match rp_err reply with
         | Some _ => [EvLog (LogCallFailed address name)]
         | None => []
         end;
       be_counted := 1 |}.

(** [addMethodToBatch] (lines 182-225).  [abiMethod.inputs] is a TypeError
    when the method is callable but has no ABI entry of that name. *)
Definition addMethodToBatch (abi : option ABI) (address : string)
    (method : MethodSpec) : MethodExpansion :=
  let name := m_name method in
  let args := m_args method in
  if negb (methodExists (web3 this) abi name) then
    {| me_settled := Resolved None; me_sync := [];
       me_callbacks := []; me_counted := 0 |}
  else
    match findAbiMethod abi name with
    | None =>
        {| me_settled := Rejected true TypeError; me_sync := [];
           me_callbacks := []; me_counted := 0 |}
    | Some abiMethod =>
        let nbrAbiArgsForMethod := length (f_inputs abiMethod) in
        let newArgs := take nbrAbiArgsForMethod (default [] args) in
        let input :=
          (λ _, encodeFunctionCall (web3 this) abiMethod newArgs) <$> args in
        let blocksState := map (addBlockToBatch address name newArgs) blocks in
        {| me_settled :=
             Resolved (Some {| r_method := name;
                               r_value := None;
                               r_values := Some (map be_sample blocksState);
                               r_input := input;
                               r_args := args |});
           me_sync := concat (map be_sync blocksState);
           me_callbacks := concat (map be_callbacks blocksState);
           me_counted := sum_list (map be_counted blocksState) |}
    end.

(** Don't read constants more than once *)
Definition filterOutConstants (address : string) (method : MethodSpec)
  : bool :=
  let readContractAtLeastOnce := bool_decide (address ∈ readContracts this) in
  negb (m_constant method && readContractAtLeastOnce).

Definition itemAddress (item : Item) : string :=
  match item with
  | ItemContract c => bc_address c
  | ItemAddress a => a
  end.

Definition itemAbi (item : Item) : option ABI :=
  match item with
  | ItemContract c => Some (bc_jsonInterface c)
  | ItemAddress a => storeGetAbiFromCache (store this) a
  end.

Definition allMethodsOf (readMethods : list MethodSpec)
    (allReadMethods : bool) (address : string) : list MethodSpec :=
  let allFields :=
    if allReadMethods
    then map formatField (storeGetReadableAbiFields (store this) address)
    else [] in
  List.filter (filterOutConstants address) (readMethods ++ allFields).

(** [addAddressToBatch] (lines 88-141). *)
Definition addAddressToBatch (readMethods : list MethodSpec)
    (allReadMethods : bool) (namespace : string) (item : Item)
  : AddressExpansion :=
  let address := itemAddress item in
  let abi := itemAbi item in
  let allMethods := allMethodsOf readMethods allReadMethods address in
  {| ae_address := address; ae_namespace := namespace;
     ae_methods := map (addMethodToBatch abi address) allMethods |}.

Definition addContractToBatch (contractConfig : ContractGroup)
  : option (list AddressExpansion) :=
  map (addAddressToBatch (default [] (g_readMethods contractConfig))
         (g_allReadMethods contractConfig)
         (default "default" (g_namespace contractConfig)))
    <$> objectToIterateOver contractConfig.
End Expansion.

(** [readContracts[address] = true] is written after an [await], in
    [addMethodToBatch] once the method's blocks have resolved and in
    [addAddressToBatch] once all the address's methods have: so after the
    expansion of the whole batch, for an address one of whose methods was
    read or all of whose methods settled without a rejection. *)
Definition isRead (m : MethodExpansion) : bool :=
  match me_settled m with
  | Resolved (Some _) => true
  | _ => false
  end.

Definition isResolved (m : MethodExpansion) : bool :=
  match me_settled m with
  | Resolved _ => true
  | Rejected _ _ => false
  end.

Definition marksAddress (a : AddressExpansion) : bool :=
  existsb isRead (ae_methods a) || forallb isResolved (ae_methods a).

Definition markedAddresses (contracts : list (option (list AddressExpansion)))
  : list string :=
  map ae_address
    (List.filter marksAddress (concat (map (default []) contracts))).

Definition markRead (addresses : list string) (e : Engine) : Engine :=
  setReadContracts (list_to_set addresses ∪ readContracts e) e.

(** What [execute] does with the settled groups: fold them into the
    tree, flatten it in place, and group it when asked to.  [flattenArgs]
    rewrites the nodes of [contractsState] themselves, so the grouping sees
    the flattened nodes. *)
Definition postProcess (this : Engine)
    (contractsPromiseResult : list (list AddressCall)) : result response :=
  result_bind (reduceContractsState contractsPromiseResult) (λ contractsState,
  result_bind (result_mapM (flattenArgs (simplifyResponse this)) contractsState)
    (λ contractsToReturn,
  Ok (if groupByNamespace this
      then Grouped (groupByNamespaceTree toString contractsToReturn)
      else Flat contractsToReturn))).

(** [execute] once [blocks] is built. *)
Definition executeOn (blocks : list Z) (contractsBatch : list ContractGroup)
  : M Engine response :=
  this ← get ;
  onStore (buildAbis this contractsBatch) ;;
  this ← get ;
  let contracts := map (addContractToBatch this blocks) contractsBatch in
  let methods := concat (map group_methods contracts) in
  emit (concat (map me_sync methods)) ;;
  emit [EvBatchExecute] ;;
  emit (concat (map me_callbacks methods)) ;;
  modify (markRead (markedAddresses contracts)) ;;
  match promiseAll (map group_settled contracts) with
  | Rejected _ err => throw err
  | Resolved contractsPromiseResult =>
      contractsToReturn ← liftResult (postProcess this contractsPromiseResult) ;
      when (logging this)
        (emit [EvLog (LogSummary (sum_list (map me_counted methods)))]) ;;
      mret contractsToReturn
  end.

(** [execute]: [None] when the loop that builds [blocks] has not ended
    within [fuel] iterations. *)
Definition execute (fuel : nat) (contractsBatch : list ContractGroup)
    (callOptions : option CallOptions) (this : Engine)
  : option (result response * Engine * list event) :=
  let blockHeight := default 1 (callOptions ≫= blockHeight) in
  let blockResolution := default 1 (callOptions ≫= blockResolution) in
  let currentBlockNumber := getBlockNumber (web3 this) in
  blocks ← buildBlocks fuel currentBlockNumber blockHeight blockResolution ;
  Some (executeOn blocks contractsBatch this).
End Execute.
End Sampling.

(** * Auxiliary notions used to state the properties *)

(** Every hash an address points at is a stored one: what [cacheAbi], the
    only writer, maintains. *)
Definition cacheWellFormed (c : AbiCache) : Prop :=
  ∀ address abiHash,
    abiHashByAddress c !! address = Some abiHash →
    is_Some (abiByHash c !! abiHash).

(** The address [a] has no hash and nothing is stored under "undefined". *)
Definition uncachedAt (a : string) (c : AbiCache) : Prop :=
  abiHashByAddress c !! a = None ∧ abiByHash c !! "undefined" = None.

(** ** Block samples *)

(** [n] steps backward from [from], [stride] apart, newest first. *)
Fixpoint stepBack (from stride : Z) (n : nat) : list Z :=
  match n with
  | O => []
  | S n' => from :: stepBack (from - stride) stride n'
  end.

(** The sample sequence as the specification words it: [blockHeight]
    steps backward from the current height, then reversed. *)
Definition samplesAsSpecified (currentHeight blockHeight blockResolution : Z)
  : list Z :=
  reverse (stepBack currentHeight blockResolution (Z.to_nat blockHeight)).

(** The number of iterations of the loop of [execute]: the iterator takes
    the values [0, blockResolution, 2*blockResolution, ...] below
    [blockHeight]. *)
Definition sampleCount (blockHeight blockResolution : Z) : nat :=
  Z.to_nat ((blockHeight + blockResolution - 1) / blockResolution).

(** The first sentence of C1, as it is stated. *)
Definition blocks_as_stated : Prop :=
  ∀ currentHeight blockHeight blockResolution,
    1 ≤ blockHeight → 1 ≤ blockResolution →
    ∃ fuel,
      Sampling.buildBlocks fuel currentHeight blockHeight blockResolution
      = Some (samplesAsSpecified currentHeight blockHeight blockResolution).

(** ** Shapes of the tree *)

(** A property of the node of [address] in a tree folded from the results
    [R] (each with the address it was read on): the address itself, the
    namespace, or a method entry with at least one bucket, each made from a
    result of [R] for that address and method. *)
Definition foldedField (R : list (string * CallResult)) (address k : string)
    (f : field) : Prop :=
  match f with
  | FStr s => (k = "address" ∧ s = address) ∨ k = "namespace"
  | FBuckets l =>
      l ≠ [] ∧
      Forall (λ ma, ∃ r, (address, r) ∈ R ∧ r_method r = k ∧
                         ma = mkMethodArg r) l
  | FValue _ | FSamples _ | FUndefined => False
  end.

Definition foldedTree (R : list (string * CallResult)) (tree : list Node)
  : Prop :=
  Forall (λ n, ∃ address, map_Forall (foldedField R address) n) tree.

(** The results of one settled address, with its address. *)
Definition resultsAt (addressCall : AddressCall)
  : list (string * CallResult) :=
  omap (λ callResult, pair (ac_address addressCall) <$> callResult)
    (ac_state addressCall).

(** The results a list of settled groups carries. *)
Definition resultsOf (contractsPromiseResult : list (list AddressCall))
  : list (string * CallResult) :=
  concat (map resultsAt (concat contractsPromiseResult)).

(** The nodes of a response. *)
Definition responseNodes (r : response) : list Node :=
  match r with
  | Flat tree => tree
  | Grouped byNamespace => concat (map snd (map_to_list byNamespace))
  | ErrorValue _ => []
  end.

(** ** Events *)

(** The events of the ABI cache: a remote fetch and the delay after it. *)
Definition isCacheEvent (ev : event) : Prop :=
  match ev with
  | EvFetch _ | EvDelay _ => True
  | _ => False
  end.

(** Where a method read of the block-sampling engine comes from: a group
    of the batch, one of its items, and a method that survived the filter. *)
Definition requestedBy (this : Sampling.Engine)
    (contractsBatch : list ContractGroup) (item : Item) (method : MethodSpec)
  : Prop :=
  ∃ g items,
    g ∈ contractsBatch ∧ objectToIterateOver g = Some items ∧ item ∈ items ∧
    method ∈ Sampling.allMethodsOf this (default [] (g_readMethods g))
               (g_allReadMethods g) (Sampling.itemAddress item).

(** ** Constant filtering *)

(** A request that does not carry the [constant] flag: one of a group's
    [readMethods], or an auto-discovered readable field (which
    [formatField] builds from the name alone). *)
Definition unflaggedRequest (store : AbiCache)
    (contractsBatch : list ContractGroup) (address name : string) : Prop :=
  ∃ g, g ∈ contractsBatch ∧
    ((∃ method, method ∈ default [] (g_readMethods g) ∧
                m_name method = name ∧ m_constant method = false) ∨
     (g_allReadMethods g = true ∧
      name ∈ Sampling.storeGetReadableAbiFields store address)).

(** The number of requests of a trace that read [name] on [address] at
    [blockNumber]. *)
Definition readsOf (address name : string) (blockNumber : Z) (t : list event)
  : nat :=
  length (List.filter
            (λ ev, match ev with
                   | EvBatchAdd c =>
                       String.eqb (c_address c) address &&
                       String.eqb (c_method c) name &&
                       bool_decide (c_block c = Some blockNumber)
                   | _ => false
                   end) t).

(** C2 as it is stated: whatever the batch, a method that the ABI of an
    address marks constant is read at most once on that address (at each
    sampled block). *)
Definition constant_read_once_as_stated : Prop :=
  ∀ md5 etherscan toString fuel contractsBatch callOptions this
    address name abiMethod blockNumber,
    match Sampling.execute md5 etherscan toString fuel contractsBatch
            callOptions this with
    | Some (_, this', t) =>
        findAbiMethod (Sampling.storeGetAbiFromCache (Sampling.store this') address) name
        = Some abiMethod →
        f_constant abiMethod = true →
        (readsOf address name blockNumber t ≤ 1)%nat
    | None => True
    end.


(** ** Flattening a grouped tree *)

(** Flattening as the specification words it: each bucket's key is
    re-attached as the [namespace] property of its nodes. *)
Definition attachNamespace (key : string) (contract : Node) : Node :=
  <["namespace" := FStr key]> contract.

Definition flattenNamespaces (byNamespace : gmap string (list Node))
  : list Node :=
  map_to_list byNamespace ≫= (λ bucket, attachNamespace bucket.1 <$> bucket.2).

(** The node still has the namespace label it was created with. *)
Definition hasNamespace (contract : Node) : Prop :=
  ∃ s, contract !! "namespace" = Some (FStr s).

(** The round trip of C9, as it is stated. *)
Definition roundtrip_as_stated : Prop :=
  ∀ toString tree,
    Forall hasNamespace tree →
    flattenNamespaces (groupByNamespaceTree toString tree) = tree.

(** ** Samples in the tree *)

(** The samples answer the blocks, one each and in their order (a sample is
    undefined when the collaborator refused the request). *)
Definition sampledAt (blocks : list Z) (samples : list (option BlockSample))
  : Prop :=
  Forall2 (λ sample blockNumber,
             ∀ s, sample = Some s → bs_blockNumber s = blockNumber)
    samples blocks.

(** A property of a node holds the samples of [blocks]: in each bucket of a
    method entry, or directly when the entry was simplified. *)
Definition holdsSamples (blocks : list Z) (f : field) : Prop :=
  match f with
  | FStr _ => True
  | FBuckets l =>
      Forall (λ ma, ∃ samples, ma_values ma = Some samples ∧
                               sampledAt blocks samples) l
  | FSamples samples => sampledAt blocks samples
  | FValue _ | FUndefined => False
  end.

(** ** Where the entries of the returned tree come from *)

(** A bucket made from the result of reading, at [blocks], a method [k]
    that was requested for a target at [address]. *)
Definition readBucket (this : Sampling.Engine)
    (contractsBatch : list ContractGroup) (blocks : list Z)
    (address k : string) (ma : MethodArg) : Prop :=
  ∃ r item method,
    ma = mkMethodArg r ∧ r_method r = k ∧
    requestedBy this contractsBatch item method ∧
    Sampling.itemAddress item = address ∧
    me_settled (Sampling.addMethodToBatch this blocks
                  (Sampling.itemAbi this item) (Sampling.itemAddress item)
                  method) = Resolved (Some r).

(** A property of the node of [address], before flattening. *)
Definition readField (this : Sampling.Engine)
    (contractsBatch : list ContractGroup) (blocks : list Z)
    (address k : string) (f : field) : Prop :=
  match f with
  | FStr s => (k = "address" ∧ s = address) ∨ k = "namespace"
  | FBuckets l =>
      l ≠ [] ∧ Forall (readBucket this contractsBatch blocks address k) l
  | FValue _ | FSamples _ | FUndefined => False
  end.

(** ** Per-call transport errors *)



(** Everything but the log line of a failed call. *)
Definition notCallFailed (ev : event) : bool :=
  match ev with
  | EvLog (LogCallFailed _ _) => false
  | _ => true
  end.




(** ** Concrete collaborators and requests, for the examples *)

Module Ex.
(** A digest that is injective enough for the examples. *)
Definition md5 (abi : ABI) : string :=
  "md5:" +:+ String.concat "," (map (λ f, default "" (f_name f)) abi).

(** No remote ABI service answers. *)
Definition etherscan (address key : string) : option ABI := None.

(** String conversion of the scalars the examples return. *)
Definition toString (v : jsval) : string :=
  match v with
  | JUndefined => "undefined"
  | JNull => "null"
  | JBool true => "true"
  | JBool false => "false"
  | JNum n => pretty n
  | JStr s => s
  | JArr _ | JObj _ => "[object Object]"
  end.

Definition uint256 : Param := {| p_name := ""; p_type := "uint256" |}.

(** A view function with [arity] inputs and one output. *)
Definition viewFn (name : string) (arity : nat) : AbiField :=
  {| f_name := Some name;
     f_inputs := replicate arity uint256;
     f_outputs := [uint256];
     f_stateMutability := Some "view";
     f_constant := true |}.

Definition erc20 : ABI :=
  [viewFn "totalSupply" 0; viewFn "decimals" 0; viewFn "paused" 0;
   viewFn "balanceOf" 1].

(** A transport that answers every call with [data c] and fails the calls
    of the methods in [failing]. *)
Definition web3 (data : Call → jsval) (failing : list string) : Web3 :=
  {| getBlockNumber := 100;
     methodExists := λ abi name,
       bool_decide (is_Some (findAbiMethod abi name));
     encodeFunctionCall := λ abiMethod args,
       "0x" +:+ default "" (f_name abiMethod);
     requestThrows := λ _, false;
     respond := λ c,
       {| rp_err := if bool_decide (c_method c ∈ failing)
                    then Some "execution reverted" else None;
          rp_data := if bool_decide (c_method c ∈ failing)
                     then JUndefined else data c |} |}.

Definition blockOf (c : Call) : jsval := JNum (default 0 (c_block c)).

Definition method (name : string) : MethodSpec :=
  {| m_name := name; m_args := None; m_constant := false |}.

Definition group (namespace : option string) (addresses : list string)
    (abi : option ABI) (readMethods : list MethodSpec) : ContractGroup :=
  {| g_addresses := Some addresses; g_contracts := None;
     g_namespace := namespace; g_readMethods := Some readMethods;
     g_allReadMethods := false; g_abi := abi |}.

Definition legacy (w : Web3) (byNamespace : bool) : Legacy.Engine :=
  {| Legacy.web3 := w;
     Legacy.etherscanApiKey := None;
     Legacy.etherscanDelayTime := 300;
     Legacy.cache := emptyCache;
     Legacy.groupByNamespace := byNamespace;
     Legacy.clearMemoryAfterExecution := false;
     Legacy.logging := false |}.

Definition sampling (w : Web3) (byNamespace simplify : bool)
    (read : gset string) : Sampling.Engine :=
  {| Sampling.web3 := w;
     Sampling.etherscanApiKey := None;
     Sampling.etherscanDelayTime := 300;
     Sampling.groupByNamespace := byNamespace;
     Sampling.logging := false;
     Sampling.simplifyResponse := simplify;
     Sampling.readContracts := read;
     Sampling.store := emptyCache |}.
End Ex.

Module ExC2.
(** Two groups that list the same address and request [decimals], which
    the ABI marks constant, without flagging the request. *)
Definition g : ContractGroup :=
  Ex.group None ["0xA"] (Some Ex.erc20) [Ex.method "decimals"].

(** An engine that has already read the address. *)
Definition engine : Sampling.Engine :=
  Ex.sampling (Ex.web3 Ex.blockOf []) false false {["0xA"]}.
End ExC2.

Module ExC10.
(** A request for [decimals] that carries the [constant] flag. *)
Definition decimals : MethodSpec :=
  {| m_name := "decimals"; m_args := None; m_constant := true |}.

Definition g : ContractGroup :=
  Ex.group None ["0xA"] (Some Ex.erc20) [decimals; Ex.method "totalSupply"].

(** An engine that has read nothing yet. *)
Definition engine : Sampling.Engine :=
  Ex.sampling (Ex.web3 Ex.blockOf []) false false ∅.

(** The engine after a first [execute] of the group. *)
Definition engine' : Sampling.Engine :=
  match Sampling.execute Ex.md5 Ex.etherscan Ex.toString 2 [g] None engine with
  | Some (_, this', _) => this'
  | None => engine
  end.
End ExC10.

Module ExC8.
End ExC8.

Module ExC9.
(** Three groups under the namespaces a, b, a. *)
Definition batch : list ContractGroup :=
  [Ex.group (Some "a") ["0xA1"] (Some Ex.erc20) [Ex.method "totalSupply"];
   Ex.group (Some "b") ["0xA2"] (Some Ex.erc20) [Ex.method "totalSupply"];
   Ex.group (Some "a") ["0xA3"] (Some Ex.erc20) [Ex.method "totalSupply"]].

(** The flat tree that [execute] returns for them. *)
Definition tree : list Node :=
  match Legacy.execute Ex.md5 Ex.etherscan Ex.toString batch None
          (Ex.legacy (Ex.web3 Ex.blockOf []) false) with
  | (Ok (Flat tree), _, _) => tree
  | _ => []
  end.

Definition node (address namespace : string) : Node :=
  <["totalSupply" := FBuckets [{| ma_value := Some (JNum 0);
                                  ma_values := None;
                                  ma_input := None;
                                  ma_args := None |}]]>
    (<["namespace" := FStr namespace]> (<["address" := FStr address]> ∅)).
End ExC9.

Module ExC7.
(** One address, one zero-argument method that returns [false]. *)
Definition batch : list ContractGroup :=
  [Ex.group None ["0xA"] (Some Ex.erc20) [Ex.method "paused"]].

Definition engine (data : jsval) : Sampling.Engine :=
  Ex.sampling (Ex.web3 (λ _, data) []) false true ∅.

Definition node (entry : field) : Node :=
  <["paused" := entry]>
    (<["namespace" := FStr "default"]> (<["address" := FStr "0xA"]> ∅)).
End ExC7.

Module ExC6.
(** A request that names a method the contract does not have, next to one
    that it has. *)
Definition batch : list ContractGroup :=
  [Ex.group None ["0xA"] (Some Ex.erc20)
     [Ex.method "retired"; Ex.method "totalSupply"]].

Definition engine : Sampling.Engine :=
  Ex.sampling (Ex.web3 Ex.blockOf []) false false ∅.
End ExC6.

Module ExC1.
(** The scenario of the specification: one address, [totalSupply],
    [blockHeight = 3] and [blockResolution = 1]. *)
Definition batch : list ContractGroup :=
  [Ex.group None ["0xA"] (Some Ex.erc20) [Ex.method "totalSupply"]].

Definition callOptions : option Sampling.CallOptions :=
  Some {| Sampling.blockHeight := Some 3; Sampling.blockResolution := Some 1 |}.

Definition engine : Sampling.Engine :=
  Ex.sampling (Ex.web3 Ex.blockOf []) false false ∅.

Definition sample (blockNumber : Z) : option BlockSample :=
  Some {| bs_value := JNum blockNumber; bs_blockNumber := blockNumber |}.
End ExC1.

Module ExC4.
(** One address, two methods; the transport fails the calls of [decimals]. *)
Definition batch : list ContractGroup :=
  [Ex.group None ["0xA"] (Some Ex.erc20)
     [Ex.method "decimals"; Ex.method "totalSupply"]].

Definition failing : Web3 := Ex.web3 Ex.blockOf ["decimals"].
End ExC4.

(** ** The trace of the cache *)

(** A fetch and the delay that follows it, for each address in turn. *)
Definition fetchedAndDelayed (delay : Z) (addresses : list string)
  : list event :=
  concat (map (λ address, [EvFetch address; EvDelay delay]) addresses).

Module ExCache.
(** A remote service that knows the ABI of one address. *)
Definition etherscan (address key : string) : option ABI :=
  if String.eqb address "0xA" then Some Ex.erc20 else None.

Definition other : ABI := [Ex.viewFn "owner" 0].

(** An address group with no ABI, and one whose address the service does
    not know. *)
Definition known : ContractGroup := Ex.group None ["0xA"; "0xA"] None [].
Definition unknown : ContractGroup := Ex.group None ["0xB"] None [].
End ExCache.

(** What a run of the cache did to the remote service: it fetched the ABIs
    of distinct addresses, none of which was cached before and all of which
    are cached afterwards, each fetch followed by the delay; and it may have
    ended on a fetch that failed. *)
Definition fetchedOnce (delay : Z) (c : AbiCache)
    (run : result unit * AbiCache * list event) : Prop :=
  ∃ fetched,
    NoDup fetched ∧
    (∀ a, a ∈ fetched →
          getAbiFromCache c a = None ∧ is_Some (getAbiFromCache run.1.2 a)) ∧
    ((run.1.1 ≠ Threw RemoteLookupError ∧
      run.2 = fetchedAndDelayed delay fetched) ∨
     (∃ a, run.1.1 = Threw RemoteLookupError ∧
           run.2 = fetchedAndDelayed delay fetched ++ [EvFetch a])).

(** ** Runs of the engine of [src/batchCall.js] *)

(** The block a request is bound to: [if (blockNumber)] leaves it unbound
    when the block number is undefined or 0. *)
Definition boundBlock (blockNumber : option Z) : option Z :=
  match blockNumber with
  | Some n => if n =? 0 then None else Some n
  | None => None
  end.

(** [execute] came back with the tree, not with an exception or an error
    value. *)
Definition succeeded (r : result response) : bool :=
  match r with
  | Ok (Flat _) | Ok (Grouped _) => true
  | Ok (ErrorValue _) | Threw _ => false
  end.

(** The address of an item of a group. *)
Definition addressOf (item : Item) : string :=
  match item with
  | ItemContract c => bc_address c
  | ItemAddress a => a
  end.

(** Where a method read of that engine comes from: a group of the batch, one
    of its items, and one of the group's read methods or, when the group
    asks for all of them, a readable field of the cached ABI. *)
Definition legacyRequested (c : AbiCache) (contractsBatch : list ContractGroup)
    (address : string) (method : MethodSpec) : Prop :=
  ∃ g items item,
    g ∈ contractsBatch ∧ objectToIterateOver g = Some items ∧ item ∈ items ∧
    address = addressOf item ∧
    method ∈ default [] (g_readMethods g) ++
             (if g_allReadMethods g
              then map formatField (getReadableAbiFields c address)
              else []).

Module ExLegacy.
(** An engine that clears its cache and logs. *)
Definition engine (w : Web3) : Legacy.Engine :=
  {| Legacy.web3 := w;
     Legacy.etherscanApiKey := None;
     Legacy.etherscanDelayTime := 300;
     Legacy.cache := emptyCache;
     Legacy.groupByNamespace := false;
     Legacy.clearMemoryAfterExecution := true;
     Legacy.logging := true |}.

(** One address, every readable field of its ABI and [balanceOf] of a
    holder. *)
Definition batch : list ContractGroup :=
  [{| g_addresses := Some ["0xA"]; g_contracts := None;
      g_namespace := None;
      g_readMethods := Some [{| m_name := "balanceOf";
                                m_args := Some [JStr "0xholder"];
                                m_constant := false |}];
      g_allReadMethods := true; g_abi := Some Ex.erc20 |}].

End ExLegacy.

(** ** Invariants of the tree *)

(** The address a node answers to in [_.find(acc, { address })]. *)
Definition nodeAddress (n : Node) : option string :=
  match n !! "address" with
  | Some (FStr s) => Some s
  | _ => None
  end.

(** The buckets of a method entry are told apart by their input: no two
    have the same one, and at most one has none. *)
Definition distinctBuckets (l : list MethodArg) : Prop :=
  NoDup (omap ma_input l) ∧
  (length (filter (λ ma, ma_input ma = None) l) ≤ 1)%nat.

Definition distinctEntries (n : Node) : Prop :=
  ∀ k l, n !! k = Some (FBuckets l) → distinctBuckets l.

Module ExFold.
(** The reads of one address: [balanceOf] of a holder twice, [totalSupply]
    twice, and a skipped method. *)
Definition read (name : string) (input : option string) (v : Z)
  : option CallResult :=
  Some {| r_method := name; r_value := Some (JNum v); r_values := None;
          r_input := input; r_args := (λ _, [JStr "0xholder"]) <$> input |}.

Definition settled : list (list AddressCall) :=
  [[{| ac_address := "0xA"; ac_namespace := "default";
       ac_state := [read "balanceOf" (Some "0x70a0") 1;
                    read "totalSupply" None 2; None] |}];
   [{| ac_address := "0xB"; ac_namespace := "default";
       ac_state := [read "totalSupply" None 3] |};
    {| ac_address := "0xA"; ac_namespace := "other";
       ac_state := [read "balanceOf" (Some "0x70a0") 4;
                    read "totalSupply" None 5] |}]].
End ExFold.

(** ** Runs of the block-sampling engine *)

(** The requests of a trace, in the order they were added to the batch. *)
Definition batchAdds (t : list event) : list Call :=
  omap (λ ev, match ev with EvBatchAdd c => Some c | _ => None end) t.

(** An entry of the returned tree that holds bare values and no per-block
    samples: buckets with a [value] and without [values], or what
    [simplifyResponse] makes of a single bucket. *)
Definition bareValues (simplifyResponse : bool) (f : field) : Prop :=
  match f with
  | FStr _ => True
  | FBuckets l =>
      Forall (λ ma, ma_values ma = None ∧ is_Some (ma_value ma)) l
  | FValue v => simplifyResponse = true ∧ truthy v = true
  | FUndefined => simplifyResponse = true
  | FSamples _ => False
  end.

(** What [flattenVal] may do to a bucket: nothing, or replace its one block
    sample by the sample's value. *)
Definition flattenedBucket (ma ma' : MethodArg) : Prop :=
  ma_input ma' = ma_input ma ∧ ma_args ma' = ma_args ma ∧
  (ma' = ma ∨
   ∃ sample, ma_values ma = Some [Some sample] ∧
             ma_value ma' = Some (bs_value sample) ∧ ma_values ma' = None).

Module ExSampling.
(** An engine that logs; the transport refuses nothing and fails the calls
    of [decimals]. *)
Definition engine (simplify : bool) : Sampling.Engine :=
  {| Sampling.web3 := Ex.web3 Ex.blockOf ["decimals"];
     Sampling.etherscanApiKey := None;
     Sampling.etherscanDelayTime := 300;
     Sampling.groupByNamespace := false;
     Sampling.logging := true;
     Sampling.simplifyResponse := simplify;
     Sampling.readContracts := ∅;
     Sampling.store := emptyCache |}.

Definition twoBlocks : option Sampling.CallOptions :=
  Some {| Sampling.blockHeight := Some 2; Sampling.blockResolution := None |}.

(** Two buckets of one entry, the first with a single sample. *)
Definition buckets : list MethodArg :=
  [{| ma_value := None;
      ma_values := Some [Some {| bs_value := JNum 7; bs_blockNumber := 100 |}];
      ma_input := Some "0x70a0"; ma_args := Some [JStr "0xholder"] |};
   {| ma_value := None; ma_values := Some [];
      ma_input := Some "0x70a1"; ma_args := Some [JStr "0xother"] |}].
End ExSampling.

(** ** What the tree of [src/batchCall.js] holds *)

(** A bucket that holds what the transport answered, without an error, to a
    request of the trace for the method [k] on [address]. *)
Definition answeredBucket (w : Web3) (t : list event) (address k : string)
    (ma : MethodArg) : Prop :=
  ∃ c, c ∈ batchAdds t ∧ c_address c = address ∧ c_method c = k ∧
       c_args c = default [] (ma_args ma) ∧
       rp_err (respond w c) = None ∧
       ma_value ma = Some (rp_data (respond w c)) ∧ ma_values ma = None.

(** A property of the node of [address] in the returned tree. *)
Definition answeredField (w : Web3) (t : list event) (address k : string)
    (f : field) : Prop :=
  match f with
  | FStr s => (k = "address" ∧ s = address) ∨ k = "namespace"
  | FBuckets l => l ≠ [] ∧ Forall (answeredBucket w t address k) l
  | FValue _ | FSamples _ | FUndefined => False
  end.

(** ** The constructor of [src/batchCall.js] (lines 8-39) *)

Module LegacyConfig.


End LegacyConfig.

Module ExConfig.

End ExConfig.

(** * Properties *)

(** ** Membership in the list combinators of the standard library *)

Lemma elem_of_concat {A} (x : A) (ls : list (list A)) :
  x ∈ concat ls ↔ ∃ l, x ∈ l ∧ l ∈ ls.
Proof.
  rewrite list_elem_of_In, in_concat. split.
  - intros (l & Hl & Hx). exists l. by rewrite !list_elem_of_In.
  - intros (l & Hx & Hl). exists l. by rewrite <- !list_elem_of_In.
Qed.

Lemma elem_of_map {A B} (f : A → B) (l : list A) (y : B) :
  y ∈ map f l ↔ ∃ x, y = f x ∧ x ∈ l.
Proof.
  rewrite list_elem_of_In, in_map_iff. split.
  - intros (x & Hx & Hl). exists x. by rewrite list_elem_of_In.
  - intros (x & Hx & Hl). exists x. by rewrite <- list_elem_of_In.
Qed.

Lemma elem_of_filter_bool {A} (p : A → bool) (l : list A) (x : A) :
  x ∈ List.filter p l ↔ x ∈ l ∧ p x = true.
Proof. by rewrite !list_elem_of_In, filter_In. Qed.

(** ** Running the monad *)

Lemma run_bind {S A B} (m : M S A) (k : A → M S B) (s : S) :
  (m ≫= k) s =
  match m s with
  | (Ok a, s1, t1) => let '(r, s2, t2) := k a s1 in (r, s2, t1 ++ t2)
  | (Threw e, s1, t1) => (Threw e, s1, t1)
  end.
Proof. reflexivity. Qed.

Lemma run_bind_ok {S A B} (m : M S A) (k : A → M S B) s a s1 t1 :
  m s = (Ok a, s1, t1) →
  (m ≫= k) s = ((k a s1).1.1, (k a s1).1.2, t1 ++ (k a s1).2).
Proof. intros H. rewrite run_bind, H. by destruct (k a s1) as [[??]?]. Qed.

Lemma run_bind_threw {S A B} (m : M S A) (k : A → M S B) s e s1 t1 :
  m s = (Threw e, s1, t1) → (m ≫= k) s = (Threw e, s1, t1).
Proof. intros H. by rewrite run_bind, H. Qed.

Lemma forM__app {S A} (f : A → M S unit) l1 l2 s :
  forM_ (l1 ++ l2) f s =
  match forM_ l1 f s with
  | (Ok _, s1, t1) => let '(r, s2, t2) := forM_ l2 f s1 in (r, s2, t1 ++ t2)
  | (Threw e, s1, t1) => (Threw e, s1, t1)
  end.
Proof.
  revert s. induction l1 as [|x l1 IH]; intros s; simpl.
  - by destruct (forM_ l2 f s) as [[??]?].
  - rewrite !run_bind. destruct (f x s) as [[[[]|e] s1] t1]; [|done].
    rewrite IH. destruct (forM_ l1 f s1) as [[[[]|e] s2] t2]; [|done].
    destruct (forM_ l2 f s2) as [[r s3] t3]. by rewrite app_assoc.
Qed.

(** ** The ABI cache *)

Section CacheFacts.
Variable md5 : ABI → string.
Variable etherscan : string → string → option ABI.
Variable etherscanApiKey : option string.
Variable etherscanDelayTime : Z.

Lemma addAbiToCache_provided address abi c :
  addAbiToCache md5 etherscan etherscanApiKey etherscanDelayTime address
    (Some abi) c = (Ok tt, cacheAbi md5 address abi c, []).
Proof. reflexivity. Qed.

Lemma getAbiFromCache_cacheAbi address abi c :
  getAbiFromCache (cacheAbi md5 address abi c) address = Some abi.
Proof.
  unfold getAbiFromCache, cacheAbi; simpl.
  by rewrite lookup_insert_eq; simpl; rewrite lookup_insert_eq.
Qed.

Lemma addAbiToCache_cached address abi c :
  getAbiFromCache c address = Some abi →
  addAbiToCache md5 etherscan etherscanApiKey etherscanDelayTime address
    None c = (Ok tt, c, []).
Proof.
  intros H. unfold addAbiToCache. rewrite run_bind. simpl. by rewrite H.
Qed.
End CacheFacts.

(** C5.  Caching the same ABI content for an address [a1] and then for an
    address [a2] (the same one or another) stores it under one hash: the
    hash-to-ABI table after both puts is the table after the first, which is
    the initial table with the single entry [md5 abi ↦ abi]; both addresses
    point at that hash and read the ABI back; from an empty cache exactly
    one entry is stored. *)
Theorem addAbiToCache_one_entry_per_content
    (md5 : ABI → string) (etherscan : string → string → option ABI)
    (key : option string) (delay : Z) (a1 a2 : string) (abi : ABI)
    (c : AbiCache) :
  let first := addAbiToCache md5 etherscan key delay a1 (Some abi) c in
  let second := addAbiToCache md5 etherscan key delay a2 (Some abi) first.1.2 in
  let fresh :=
    addAbiToCache md5 etherscan key delay a2 (Some abi)
      (addAbiToCache md5 etherscan key delay a1 (Some abi) emptyCache).1.2 in
  first.1.1 = Ok tt ∧ second.1.1 = Ok tt ∧
  abiByHash second.1.2 = abiByHash first.1.2 ∧
  abiByHash second.1.2 = <[md5 abi := abi]> (abiByHash c) ∧
  abiHashByAddress second.1.2 !! a1 = Some (md5 abi) ∧
  abiHashByAddress second.1.2 !! a2 = Some (md5 abi) ∧
  getAbiFromCache second.1.2 a1 = Some abi ∧
  getAbiFromCache second.1.2 a2 = Some abi ∧
  size (abiByHash fresh.1.2) = 1%nat ∧
  first.2 = [] ∧ second.2 = [].
Proof.
  intros first second fresh. subst first second fresh.
  rewrite !addAbiToCache_provided. simpl.
  assert (Ha2 : (<[a2:=md5 abi]> (<[a1:=md5 abi]> (abiHashByAddress c))
                   : gmap string string) !! a1 = Some (md5 abi)).
  { destruct (decide (a2 = a1)) as [->|Hne].
    - by rewrite lookup_insert_eq.
    - by rewrite lookup_insert_ne, lookup_insert_eq. }
  repeat split.
  - by rewrite insert_insert_eq.
  - by rewrite insert_insert_eq.
  - done.
  - by rewrite lookup_insert_eq.
  - unfold getAbiFromCache; simpl. rewrite Ha2. simpl. by rewrite lookup_insert_eq.
  - unfold getAbiFromCache; simpl. rewrite lookup_insert_eq. simpl.
    by rewrite lookup_insert_eq.
  - rewrite insert_insert_eq, insert_empty. apply map_size_singleton.
Qed.

(** ** The warm-up without a remote credential *)

Section NoCredential.
Variable md5 : ABI → string.
Variable etherscan : string → string → option ABI.
Variable delay : Z.
Hypothesis md5_defined : ∀ abi, md5 abi ≠ "undefined".

Variable a : string.
Lemma uncached_of_wf c :
  cacheWellFormed c → getAbiFromCache c a = None → uncachedAt a c.
Proof.
  intros Hwf Hget. unfold getAbiFromCache in Hget.
  destruct (abiHashByAddress c !! a) as [h|] eqn:Hh; simpl in Hget.
  - destruct (Hwf _ _ Hh) as [x Hx]. congruence.
  - by split.
Qed.

Lemma uncached_get c : uncachedAt a c → getAbiFromCache c a = None.
Proof. intros [H1 H2]. unfold getAbiFromCache. by rewrite H1. Qed.

Lemma uncached_cacheAbi c address abi :
  address ≠ a → uncachedAt a c → uncachedAt a (cacheAbi md5 address abi c).
Proof.
  intros Hne [H1 H2]. split; simpl.
  - by rewrite lookup_insert_ne.
  - rewrite lookup_insert_ne; [done|apply md5_defined].
Qed.

Lemma addAbiToCache_no_key address providedAbi c :
  addAbiToCache md5 etherscan None delay address providedAbi c =
  match providedAbi with
  | Some abi => (Ok tt, cacheAbi md5 address abi c, [])
  | None =>
      match getAbiFromCache c address with
      | Some _ => (Ok tt, c, [])
      | None => (Threw ConfigurationError, c, [])
      end
  end.
Proof.
  destruct providedAbi; [done|].
  unfold addAbiToCache. rewrite run_bind. simpl.
  by destruct (getAbiFromCache c address).
Qed.

Lemma addAbis_no_key addresses abi c :
  uncachedAt a c → (a ∈ addresses → abi = None) →
  ∃ c', (forM_ addresses
          (λ address, addAbiToCache md5 etherscan None delay address abi) c
        = (Threw ConfigurationError, c', []))
      ∨ ((a ∉ addresses) ∧
         forM_ addresses
           (λ address, addAbiToCache md5 etherscan None delay address abi) c
         = (Ok tt, c', []) ∧ uncachedAt a c').
Proof.
  revert c. induction addresses as [|address addresses IH]; intros c Hc Ha.
  - exists c. right. split; [by apply not_elem_of_nil|done].
  - simpl. rewrite run_bind, addAbiToCache_no_key.
    destruct (decide (address = a)) as [->|Hne].
    + rewrite Ha by apply list_elem_of_here. rewrite (uncached_get _ Hc).
      exists c. by left.
    + assert (Ha' : a ∈ addresses → abi = None).
      { intros ?. apply Ha. by apply list_elem_of_further. }
      assert (Hstep : ∀ c1, uncachedAt a c1 →
        ∃ c', ((let '(r, s2, t2) :=
                 forM_ addresses
                   (λ address0, addAbiToCache md5 etherscan None delay
                                  address0 abi) c1
               in (r, s2, [] ++ t2)) = (Threw ConfigurationError, c', []))
            ∨ ((a ∉ address :: addresses) ∧
               (let '(r, s2, t2) :=
                  forM_ addresses
                    (λ address0, addAbiToCache md5 etherscan None delay
                                   address0 abi) c1
                in (r, s2, [] ++ t2)) = (Ok tt, c', []) ∧ uncachedAt a c')).
      { intros c1 Hc1. destruct (IH c1 Hc1 Ha') as [c' [H|(Hni & H & Hu)]];
          exists c'; rewrite H.
        - by left.
        - right. split; [|done]. rewrite not_elem_of_cons. by split. }
      destruct abi as [abi|].
      * apply Hstep. by apply uncached_cacheAbi.
      * destruct (getAbiFromCache c address).
        -- by apply Hstep.
        -- exists c. by left.
Qed.

(** With no credential the warm-up either stops on the configuration
    error, or ends without having met the uncached address. *)
Lemma warmUp_no_key contractsBatch c :
  uncachedAt a c →
  (∀ g, g ∈ contractsBatch → g_contracts g = None →
        ∃ addresses, g_addresses g = Some addresses ∧
                     (a ∈ addresses → g_abi g = None)) →
  ∃ c', (warmUp md5 etherscan None delay contractsBatch c
        = (Threw ConfigurationError, c', []))
      ∨ ((∀ g addresses, g ∈ contractsBatch → g_contracts g = None →
            g_addresses g = Some addresses → a ∉ addresses) ∧
         warmUp md5 etherscan None delay contractsBatch c = (Ok tt, c', []) ∧
         uncachedAt a c').
Proof.
  revert c. induction contractsBatch as [|g batch IH]; intros c Hc Hwf.
  - exists c. right. split; [|done]. intros ?? H. by apply elem_of_nil in H.
  - assert (Hwf' : ∀ g0, g0 ∈ batch → g_contracts g0 = None →
             ∃ addresses, g_addresses g0 = Some addresses ∧
                          (a ∈ addresses → g_abi g0 = None)).
    { intros g0 ?. apply Hwf. by apply list_elem_of_further. }
    unfold warmUp. simpl. fold (warmUp md5 etherscan None delay batch).
    rewrite run_bind.
    destruct (g_contracts g) as [cs|] eqn:Hcs.
    + simpl. destruct (IH c Hc Hwf') as [c' [H|(Hni & H & Hu)]];
        exists c'; rewrite H; [by left|].
      right. split; [|done]. intros g0 as0 Hin Hc0 Has0.
      apply elem_of_cons in Hin as [->|Hin]; [congruence|eauto].
    + destruct (Hwf g (list_elem_of_here _ _) Hcs) as (addresses & Hadd & Habi).
      unfold addAbis. rewrite Hadd.
      destruct (addAbis_no_key addresses (g_abi g) c Hc Habi)
        as [c1 [H|(Hni & H & Hu)]]; rewrite H.
      * exists c1. by left.
      * destruct (IH c1 Hu Hwf') as [c' [H'|(Hni' & H' & Hu')]];
          exists c'; rewrite H'; [by left|].
        right. split; [|done]. intros g0 as0 Hin Hc0 Has0.
        apply elem_of_cons in Hin as [->|Hin]; [|eauto].
        congruence.
Qed.
End NoCredential.

(** C3.  An [execute] of the engine of [src/batchCall.js] without a remote
    credential, on a batch one of whose address groups supplies no ABI and
    lists an address that has no cached ABI and for which no earlier group
    of the batch supplies one, throws the configuration error to its
    caller, and its trace is empty: no request was added to a batch and no
    batch was submitted. *)
Theorem execute_fails_without_credential
    (md5 : ABI → string) (etherscan : string → string → option ABI)
    (toString : jsval → string) (this : Legacy.Engine)
    (earlier later : list ContractGroup) (blockNumber : option Z)
    (g : ContractGroup) (addresses : list string) (a : string) :
  (∀ abi, md5 abi ≠ "undefined") →
  Legacy.etherscanApiKey this = None →
  cacheWellFormed (Legacy.cache this) →
  getAbiFromCache (Legacy.cache this) a = None →
  g_contracts g = None → g_abi g = None →
  g_addresses g = Some addresses → a ∈ addresses →
  (∀ g', g' ∈ earlier → g_contracts g' = None →
         ∃ addresses', g_addresses g' = Some addresses' ∧
                       (a ∈ addresses' → g_abi g' = None)) →
  ∃ c', Legacy.execute md5 etherscan toString (earlier ++ g :: later)
          blockNumber this
        = (Threw ConfigurationError, Legacy.setCache c' this, []).
Proof.
  intros Hmd5 Hkey Hwf Hget Hcs Habi Has Ha Hearlier.
  pose proof (uncached_of_wf a _ Hwf Hget) as Hun.
  assert (Hwarm : ∃ c', warmUp md5 etherscan None
                          (Legacy.etherscanDelayTime this)
                          (earlier ++ g :: later) (Legacy.cache this)
                        = (Threw ConfigurationError, c', [])).
  { unfold warmUp. rewrite forM__app.
    fold (warmUp md5 etherscan None (Legacy.etherscanDelayTime this) earlier).
    destruct (warmUp_no_key md5 etherscan (Legacy.etherscanDelayTime this)
                Hmd5 a earlier _ Hun Hearlier) as [c1 [H|(_ & H & Hun1)]];
      rewrite H; [by exists c1|].
    simpl. rewrite run_bind, Hcs. unfold addAbis. rewrite Has, Habi.
    destruct (addAbis_no_key md5 etherscan (Legacy.etherscanDelayTime this)
                Hmd5 a addresses None c1 Hun1 (λ _, eq_refl))
      as [c2 [H2|(Hni & _)]]; [|done].
    rewrite H2. by exists c2. }
  destruct Hwarm as [c' Hwarm]. exists c'.
  unfold Legacy.execute. rewrite run_bind. simpl.
  rewrite run_bind. unfold Legacy.onCache. by rewrite Hkey, Hwarm.
Qed.

Lemma execute_fails_without_credential_witness :
  ∃ c', Legacy.execute Ex.md5 Ex.etherscan Ex.toString
          ([Ex.group None ["0xB"] (Some Ex.erc20) [Ex.method "totalSupply"]] ++
           Ex.group None ["0xA"] None [Ex.method "totalSupply"] :: [])
          None (Ex.legacy (Ex.web3 Ex.blockOf []) false)
        = (Threw ConfigurationError,
           Legacy.setCache c' (Ex.legacy (Ex.web3 Ex.blockOf []) false), []).
Proof.
  apply (execute_fails_without_credential Ex.md5 Ex.etherscan Ex.toString
           (Ex.legacy (Ex.web3 Ex.blockOf []) false)
           [Ex.group None ["0xB"] (Some Ex.erc20) [Ex.method "totalSupply"]]
           [] None
           (Ex.group None ["0xA"] None [Ex.method "totalSupply"])
           ["0xA"] "0xA").
  - intros abi. unfold Ex.md5. simpl. discriminate.
  - reflexivity.
  - intros address abiHash H. simpl in H. by rewrite lookup_empty in H.
  - reflexivity.
  - reflexivity.
  - reflexivity.
  - reflexivity.
  - apply list_elem_of_here.
  - intros g' Hg' _. apply list_elem_of_singleton in Hg' as ->.
    exists ["0xB"]. split; [reflexivity|].
    intros H. apply list_elem_of_singleton in H. discriminate.
Defined.

(** When an earlier group of the batch supplies the ABI of the address, the
    later group finds it cached, and nothing is fetched. *)
Example supplied_by_an_earlier_group :
  (Legacy.execute Ex.md5 Ex.etherscan Ex.toString
     [Ex.group None ["0xA"] (Some Ex.erc20) [];
      Ex.group None ["0xA"] None [Ex.method "totalSupply"]]
     None (Ex.legacy (Ex.web3 Ex.blockOf []) false)).1.1
  = Ok (Flat [<["totalSupply" :=
                  FBuckets [{| ma_value := Some (JNum 0); ma_values := None;
                               ma_input := None; ma_args := None |}]]>
                (<["namespace" := FStr "default"]>
                   (<["address" := FStr "0xA"]> ∅))]).
Proof. vm_compute. reflexivity. Qed.

(** ** The block loop *)

Lemma stepBack_length from stride n : length (stepBack from stride n) = n.
Proof. revert from. induction n; intros; simpl; [done|by rewrite IHn]. Qed.

Lemma stepBack_bounds from stride n x :
  1 ≤ stride → x ∈ stepBack from stride n →
  from - Z.of_nat n * stride < x ≤ from.
Proof.
  intros Hs. revert from. induction n as [|n IH]; intros from Hx; simpl in Hx.
  - by apply elem_of_nil in Hx.
  - apply elem_of_cons in Hx as [->|Hx]; [nia|].
    apply IH in Hx. nia.
Qed.

Lemma stepBack_increasing from stride n :
  1 ≤ stride → StronglySorted Z.lt (reverse (stepBack from stride n)).
Proof.
  intros Hs. revert from. induction n as [|n IH]; intros from; simpl.
  - constructor.
  - rewrite reverse_cons. apply StronglySorted_app. split_and!.
    + intros x1 x2 H1 H2. apply list_elem_of_singleton in H2 as ->.
      rewrite elem_of_reverse in H1.
      apply (stepBack_bounds _ _ _ _ Hs) in H1. lia.
    + apply IH.
    + repeat constructor.
Qed.

(** The loop, run from any iterator value: it appends the remaining steps. *)
Lemma blocksLoop_steps cur h r n : 1 ≤ r →
  ∀ fuel it acc,
    Z.to_nat ((h - it + r - 1) / r) = n → (n < fuel)%nat →
    Sampling.blocksLoop fuel cur h r it acc
    = Some (acc ++ stepBack (cur - it) r n).
Proof.
  intros Hr. induction n as [|n IH]; intros fuel it acc Hn Hfuel.
  - destruct fuel as [|fuel]; [lia|]. simpl.
    assert (h ≤ it).
    { destruct (decide (h ≤ it)); [done|]. exfalso.
      assert (1 ≤ (h - it + r - 1) / r).
      { apply Z.div_le_lower_bound; lia. }
      lia. }
    rewrite (proj2 (Z.ltb_ge it h)) by done. by rewrite app_nil_r.
  - destruct fuel as [|fuel]; [lia|]. simpl.
    assert (it < h).
    { destruct (decide (it < h)); [done|]. exfalso.
      assert ((h - it + r - 1) / r ≤ 0).
      { apply Z.lt_succ_r. apply Z.div_lt_upper_bound; lia. }
      lia. }
    rewrite (proj2 (Z.ltb_lt it h)) by done.
    rewrite (IH fuel (it + r) (acc ++ [cur - it])).
    + rewrite <- app_assoc. simpl. do 4 f_equal. lia.
    + replace (h - (it + r) + r - 1) with ((h - it + r - 1) + (-1) * r) by lia.
      rewrite Z.div_add by lia. lia.
    + lia.
Qed.

Lemma sampleCount_le h r : 1 ≤ h → 1 ≤ r → (sampleCount h r ≤ Z.to_nat h)%nat.
Proof.
  intros Hh Hr. unfold sampleCount.
  assert ((h + r - 1) / r ≤ h); [|lia].
  apply Z.lt_succ_r. apply Z.div_lt_upper_bound; nia.
Qed.

Lemma buildBlocks_steps fuel cur h r :
  1 ≤ r → (sampleCount h r < fuel)%nat →
  Sampling.buildBlocks fuel cur h r
  = Some (reverse (stepBack cur r (sampleCount h r))).
Proof.
  intros Hr Hfuel. unfold Sampling.buildBlocks.
  rewrite (blocksLoop_steps cur h r (sampleCount h r) Hr fuel 0 []).
  - simpl. by rewrite Z.sub_0_r.
  - unfold sampleCount. do 2 f_equal. lia.
  - done.
Qed.

(** A stride that does not advance the iterator never ends the loop. *)
Lemma blocksLoop_diverges fuel cur h r it acc :
  r ≤ 0 → it < h → Sampling.blocksLoop fuel cur h r it acc = None.
Proof.
  intros Hr. revert it acc. induction fuel as [|fuel IH]; intros it acc Hit.
  - done.
  - simpl. rewrite (proj2 (Z.ltb_lt it h)) by done. apply IH. lia.
Qed.

(** C1, as stated, fails: with [blockHeight = 3] and [blockResolution = 2]
    the loop runs twice (iterator 0 and 2) and samples blocks 98 and 100 of
    a chain at height 100, not the three blocks 96, 98, 100. *)
Lemma blocks_as_stated_fails :
  Sampling.buildBlocks 3 100 3 2 = Some [98; 100] ∧
  samplesAsSpecified 100 3 2 = [96; 98; 100] ∧
  ¬ blocks_as_stated.
Proof.
  split_and!; [reflexivity|reflexivity|].
  intros H. destruct (H 100 3 2) as [fuel Hfuel]; [lia|lia|].
  destruct fuel as [|[|[|fuel]]]; vm_compute in Hfuel; discriminate.
Qed.

(** ** The fold that builds the tree *)

Lemma result_foldM_inv {A B} (I : B → Prop) (f : B → A → result B) l :
  (∀ b x b', x ∈ l → I b → f b x = Ok b' → I b') →
  ∀ acc r, I acc → result_foldM f l acc = Ok r → I r.
Proof.
  induction l as [|x l IH]; intros Hf acc r Hacc H; simpl in H.
  - by inversion H; subst.
  - destruct (f acc x) as [b|e] eqn:Hfx; simpl in H; [|done].
    apply (IH (λ b0 x0 b' Hin, Hf b0 x0 b' (list_elem_of_further _ _ _ Hin))
             b r); [|done].
    apply (Hf acc x b); [apply list_elem_of_here|done|done].
Qed.

Section Folded.
Variable R : list (string * CallResult).

Lemma newAddressResult_folded address namespace r :
  (address, r) ∈ R →
  map_Forall (foldedField R address)
    (newAddressResult address namespace (r_method r) (mkMethodArg r)).
Proof.
  intros Hr. unfold newAddressResult.
  apply map_Forall_insert_2.
  { simpl. split; [done|]. constructor; [|constructor]. by exists r. }
  apply map_Forall_insert_2; [simpl; by right|].
  apply map_Forall_insert_2; [simpl; by left|].
  apply map_Forall_empty.
Qed.

Lemma mergeMethodArg_folded address addressResult r n :
  (address, r) ∈ R → map_Forall (foldedField R address) addressResult →
  mergeMethodArg addressResult r = Ok n →
  map_Forall (foldedField R address) n.
Proof.
  intros Hr Hnode. unfold mergeMethodArg.
  assert (Hone : foldedField R address (r_method r) (FBuckets [mkMethodArg r])).
  { simpl. split; [done|]. constructor; [|constructor]. by exists r. }
  assert (Hmerge : ∀ methodArgs,
    Forall (λ ma, ∃ r0, (address, r0) ∈ R ∧ r_method r0 = r_method r ∧
                        ma = mkMethodArg r0) methodArgs →
    map_Forall (foldedField R address)
      (let n1 := match List.find (sameInput (r_input r)) methodArgs with
                 | None => <[r_method r := FBuckets (methodArgs ++ [mkMethodArg r])]>
                             addressResult
                 | Some _ => addressResult
                 end in
       if truthy_str (r_input r) then n1
       else <[r_method r := FBuckets [mkMethodArg r]]> n1)).
  { intros methodArgs Hl. simpl.
    assert (map_Forall (foldedField R address)
              match List.find (sameInput (r_input r)) methodArgs with
              | None => <[r_method r := FBuckets (methodArgs ++ [mkMethodArg r])]>
                          addressResult
              | Some _ => addressResult
              end).
    { destruct (List.find _ _); [done|].
      apply map_Forall_insert_2; [|done]. simpl. split.
      - by destruct methodArgs.
      - apply Forall_app. split; [done|]. constructor; [|constructor].
        by exists r. }
    destruct (truthy_str (r_input r)); [done|].
    by apply map_Forall_insert_2. }
  destruct (addressResult !! r_method r) as [[s|l|v|l|]|] eqn:Hlook;
    intros H; try discriminate H; injection H as <-.
  - apply (Hmerge l). by apply (Hnode _ _ Hlook).
  - apply (Hmerge []). constructor.
  - apply (Hmerge []). constructor.
Qed.

(** A node that [_.find(acc, { address })] finds is the node of that
    address. *)
Lemma hasAddress_owner address owner n :
  hasAddress address n = true → map_Forall (foldedField R owner) n →
  owner = address.
Proof.
  unfold hasAddress. intros Hfound Hnode.
  destruct (n !! "address") as [[s| | | |]|] eqn:Hlook; try done.
  apply String.eqb_eq in Hfound as ->.
  destruct (Hnode _ _ Hlook) as [[_ ?]|?]; done.
Qed.

Lemma addMethodResults_folded address namespace acc callResult tree :
  (∀ r, callResult = Some r → (address, r) ∈ R) → foldedTree R acc →
  addMethodResults address namespace acc callResult = Ok tree →
  foldedTree R tree.
Proof.
  intros Hin Hacc. unfold addMethodResults.
  destruct callResult as [r|]; [|by intros [= <-]].
  specialize (Hin r eq_refl).
  destruct (list_find _ acc) as [[i addressResult]|] eqn:Hfind.
  - apply list_find_Some in Hfind as (Hi & Hfound & _).
    destruct (mergeMethodArg addressResult r) as [n|] eqn:Hm; simpl; [|done].
    intros [= <-]. apply Forall_insert; [done|].
    destruct (Forall_lookup_1 _ _ _ _ Hacc Hi) as [owner Hnode].
    pose proof (hasAddress_owner _ _ _ Hfound Hnode) as ->.
    exists address. by apply (mergeMethodArg_folded address addressResult r n).
  - intros [= <-]. apply Forall_app. split; [done|].
    constructor; [|constructor]. exists address.
    by apply newAddressResult_folded.
Qed.

Lemma reduceContractsState_folded contractsPromiseResult tree :
  (∀ x, x ∈ resultsOf contractsPromiseResult → x ∈ R) →
  reduceContractsState contractsPromiseResult = Ok tree → foldedTree R tree.
Proof.
  intros HR. unfold reduceContractsState.
  apply (result_foldM_inv (foldedTree R)); [|constructor].
  intros acc contractConfig acc' Hcc Hacc. unfold formatContractsState.
  apply (result_foldM_inv (foldedTree R)); [|done].
  intros acc1 addressCall acc1' Hac Hacc1. unfold addAddressCalls.
  apply (result_foldM_inv (foldedTree R)); [|done].
  intros acc2 callResult acc2' Hcr Hacc2.
  apply addMethodResults_folded; [|done].
  intros r ->. apply HR. unfold resultsOf.
  apply elem_of_concat. exists (resultsAt addressCall). split.
  - unfold resultsAt. apply list_elem_of_omap. by exists (Some r).
  - apply elem_of_map. exists addressCall. split; [done|].
    apply elem_of_concat. by exists contractConfig.
Qed.
End Folded.

(** ** Promises *)

Lemma allResolved_Resolved {A} (l : list (Settled A)) xs :
  allResolved l = Resolved xs → l = map Resolved xs.
Proof.
  revert xs. induction l as [|[a|sync e] l IH]; intros xs H; simpl in H.
  - by injection H as <-.
  - destruct (allResolved l) as [as'|]; [|done].
    injection H as <-. simpl. by rewrite (IH as').
  - done.
Qed.

Lemma promiseAll_Resolved {A} (l : list (Settled A)) xs :
  promiseAll l = Resolved xs → l = map Resolved xs.
Proof.
  unfold promiseAll. destruct (head _); [done|]. apply allResolved_Resolved.
Qed.

Lemma map_eq_elem {A B C} (f : A → C) (g : B → C) l l' y :
  map f l = map g l' → y ∈ l' → ∃ x, x ∈ l ∧ f x = g y.
Proof.
  intros Heq Hy.
  assert (g y ∈ map f l) as Hin.
  { rewrite Heq. apply elem_of_map. by exists y. }
  apply elem_of_map in Hin as (x & Hx & Hl). by exists x.
Qed.

(** Every result that reaches the fold is the resolution of a method
    promise of the expansion of its address. *)
Lemma resultsOf_settled (contracts : list (option (list AddressExpansion)))
    contractsPromiseResult address r :
  promiseAll (map group_settled contracts) = Resolved contractsPromiseResult →
  (address, r) ∈ resultsOf contractsPromiseResult →
  ∃ addresses a m,
    Some addresses ∈ contracts ∧ a ∈ addresses ∧ m ∈ ae_methods a ∧
    ae_address a = address ∧ me_settled m = Resolved (Some r).
Proof.
  intros Hall Hr. apply promiseAll_Resolved in Hall.
  unfold resultsOf in Hr.
  apply elem_of_concat in Hr as (rs & Hr & Hrs).
  apply elem_of_map in Hrs as (addressCall & -> & Hac).
  unfold resultsAt in Hr.
  apply list_elem_of_omap in Hr as (o & Hstate & Ho).
  destruct o as [r'|]; simpl in Ho; [|done]. injection Ho as <- <-.
  apply elem_of_concat in Hac as (calls & Hac & Hcalls).
  destruct (map_eq_elem _ _ _ _ _ Hall Hcalls) as (group & Hgroup & Hgs).
  destruct group as [addresses|]; simpl in Hgs; [|done].
  apply promiseAll_Resolved in Hgs.
  destruct (map_eq_elem _ _ _ _ _ Hgs Hac) as (a & Ha & Hss).
  unfold ae_settled in Hss.
  destruct (promiseAll (map me_settled (ae_methods a))) as [st|] eqn:Hm;
    [|done].
  injection Hss as <-. simpl in Hstate.
  apply promiseAll_Resolved in Hm.
  destruct (map_eq_elem _ _ _ _ _ Hm Hstate) as (m & Hmm & Hms).
  by exists addresses, a, m.
Qed.

(** ** The block-sampling engine, step by step *)

Section SamplingFacts.
Variable md5 : ABI → string.
Variable etherscan : string → string → option ABI.
Variable toString : jsval → string.

(** [executeOn] spelled out: the warm-up, then the expansion, the flush,
    the callbacks and the marks, then the post-processing. *)
Lemma executeOn_run blocks contractsBatch this :
  Sampling.executeOn md5 etherscan toString blocks contractsBatch this =
  let '(warm, c', tw) :=
    warmUp md5 etherscan (Sampling.etherscanApiKey this)
      (Sampling.etherscanDelayTime this) contractsBatch (Sampling.store this) in
  let this' := Sampling.setStore c' this in
  match warm with
  | Threw e => (Threw e, this', tw)
  | Ok _ =>
      let contracts :=
        map (Sampling.addContractToBatch this' blocks) contractsBatch in
      let methods := concat (map group_methods contracts) in
      let t := tw ++ concat (map me_sync methods) ++
               EvBatchExecute :: concat (map me_callbacks methods) in
      let final :=
        Sampling.markRead (Sampling.markedAddresses contracts) this' in
      match promiseAll (map group_settled contracts) with
      | Rejected _ err => (Threw err, final, t)
      | Resolved contractsPromiseResult =>
          match Sampling.postProcess toString this' contractsPromiseResult with
          | Threw err => (Threw err, final, t)
          | Ok contractsToReturn =>
              (Ok contractsToReturn, final,
               t ++ (if Sampling.logging this
                     then [EvLog (LogSummary
                                    (sum_list (map me_counted methods)))]
                     else []))
          end
      end
  end.
Proof.
  unfold Sampling.executeOn. rewrite run_bind. simpl.
  rewrite run_bind. unfold Sampling.onStore at 1.
  change (Sampling.buildAbis md5 etherscan this contractsBatch)
    with (warmUp md5 etherscan (Sampling.etherscanApiKey this)
            (Sampling.etherscanDelayTime this) contractsBatch).
  destruct (warmUp _ _ _ _ _ _) as [[[[]|e] c'] tw]; [|done].
  rewrite run_bind. simpl. rewrite !run_bind. simpl.
  rewrite !run_bind. simpl. rewrite !run_bind. simpl.
  destruct (promiseAll _) as [cpr|sync err]; simpl.
  - rewrite run_bind. unfold liftResult at 1.
    destruct (Sampling.postProcess _ _ _) as [resp|err]; simpl.
    + rewrite run_bind. destruct (Sampling.logging this); simpl;
        by rewrite ?app_nil_r, <- ?app_assoc.
    + by rewrite ?app_nil_r, <- ?app_assoc.
  - by rewrite ?app_nil_r, <- ?app_assoc.
Qed.

Lemma methods_origin this blocks contractsBatch m :
  m ∈ concat (map group_methods
                (map (Sampling.addContractToBatch this blocks) contractsBatch)) →
  ∃ item method,
    requestedBy this contractsBatch item method ∧
    m = Sampling.addMethodToBatch this blocks (Sampling.itemAbi this item)
          (Sampling.itemAddress item) method.
Proof.
  intros Hm.
  apply elem_of_concat in Hm as (ms & Hm & Hms).
  apply elem_of_map in Hms as (group & -> & Hgroup).
  apply elem_of_map in Hgroup as (g & -> & Hg).
  unfold group_methods, Sampling.addContractToBatch in Hm.
  destruct (objectToIterateOver g) as [items|] eqn:Hitems; simpl in Hm;
    [|by apply elem_of_nil in Hm].
  apply elem_of_concat in Hm as (ms & Hm & Hms).
  apply elem_of_map in Hms as (a & -> & Ha).
  apply elem_of_map in Ha as (item & -> & Hitem).
  simpl in Hm. apply elem_of_map in Hm as (method & -> & Hmethod).
  exists item, method. split; [|done]. by exists g, items.
Qed.

Lemma addBlockToBatch_call this address name newArgs blockNumber c :
  EvBatchAdd c ∈ Sampling.be_sync (Sampling.addBlockToBatch this address name newArgs
                            blockNumber) →
  c = {| c_address := address; c_method := name; c_args := newArgs;
         c_block := Some blockNumber |}.
Proof.
  unfold Sampling.addBlockToBatch. destruct (requestThrows _ _); simpl.
  - intros H. apply list_elem_of_singleton in H. discriminate.
  - intros H. apply list_elem_of_singleton in H. by injection H.
Qed.

Lemma addMethodToBatch_call this blocks abi address method c :
  EvBatchAdd c ∈ me_sync (Sampling.addMethodToBatch this blocks abi address
                            method) →
  methodExists (Sampling.web3 this) abi (m_name method) = true ∧
  ∃ abiMethod blockNumber,
    findAbiMethod abi (m_name method) = Some abiMethod ∧
    blockNumber ∈ blocks ∧
    c = {| c_address := address; c_method := m_name method;
           c_args := take (length (f_inputs abiMethod))
                       (default [] (m_args method));
           c_block := Some blockNumber |}.
Proof.
  unfold Sampling.addMethodToBatch.
  destruct (methodExists _ _ _); simpl; [|by intros H; apply elem_of_nil in H].
  destruct (findAbiMethod abi (m_name method)) as [abiMethod|]; simpl;
    [|by intros H; apply elem_of_nil in H].
  intros H. split; [done|].
  apply elem_of_concat in H as (evs & Hc & Hevs).
  apply elem_of_map in Hevs as (be & -> & Hbe).
  apply elem_of_map in Hbe as (blockNumber & -> & Hb).
  apply addBlockToBatch_call in Hc. by exists abiMethod, blockNumber.
Qed.

Lemma forM__trace {S A} (P : event → Prop) (f : A → M S unit) l :
  (∀ x s, Forall P (f x s).2) → ∀ s, Forall P (forM_ l f s).2.
Proof.
  intros Hf. induction l as [|x l IH]; intros s; simpl.
  - constructor.
  - rewrite run_bind. specialize (Hf x s).
    destruct (f x s) as [[[[]|e] s1] t1]; simpl in *; [|done].
    specialize (IH s1). destruct (forM_ l f s1) as [[r s2] t2]; simpl in *.
    by apply Forall_app.
Qed.

Lemma warmUp_trace key delay contractsBatch c :
  Forall isCacheEvent (warmUp md5 etherscan key delay contractsBatch c).2.
Proof.
  apply forM__trace. intros g s.
  destruct (g_contracts g); simpl; [constructor|].
  unfold addAbis. destruct (g_addresses g); simpl; [|constructor].
  apply forM__trace. intros address s'. unfold addAbiToCache.
  rewrite run_bind. simpl. destruct (g_abi g); simpl; [constructor|].
  destruct (getAbiFromCache s' address); simpl; [constructor|].
  rewrite run_bind. unfold fetchAbi. destruct key as [k|]; simpl; [|constructor].
  rewrite run_bind. simpl.
  destruct (etherscan address k); simpl; repeat constructor.
Qed.

(** What any run of [execute] looks like: the blocks were built; the
    warm-up left its cache events; then either the warm-up threw, or the
    batch was expanded against the warmed-up store, flushed once, and the
    settled groups were post-processed. *)
Lemma execute_inv fuel contractsBatch callOptions this res this' t :
  Sampling.execute md5 etherscan toString fuel contractsBatch callOptions this
  = Some (res, this', t) →
  ∃ blocks tw,
    Sampling.buildBlocks fuel (getBlockNumber (Sampling.web3 this))
      (default 1 (callOptions ≫= Sampling.blockHeight))
      (default 1 (callOptions ≫= Sampling.blockResolution)) = Some blocks ∧
    Forall isCacheEvent tw ∧
    let this1 := Sampling.setStore (Sampling.store this') this in
    let contracts :=
      map (Sampling.addContractToBatch this1 blocks) contractsBatch in
    let methods := concat (map group_methods contracts) in
    (∃ e, res = Threw e ∧ this' = this1 ∧ t = tw) ∨
    (this' = Sampling.markRead (Sampling.markedAddresses contracts) this1 ∧
     ∃ summary,
       t = tw ++ concat (map me_sync methods) ++
           EvBatchExecute :: concat (map me_callbacks methods) ++ summary ∧
       ((∃ sync err,
           promiseAll (map group_settled contracts) = Rejected sync err ∧
           res = Threw err ∧ summary = []) ∨
        (∃ contractsPromiseResult,
           promiseAll (map group_settled contracts)
           = Resolved contractsPromiseResult ∧
           res = Sampling.postProcess toString this1 contractsPromiseResult ∧
           summary = if Sampling.isOk res && Sampling.logging this
                     then [EvLog (LogSummary
                                    (sum_list (map me_counted methods)))]
                     else []))).
Proof.
  unfold Sampling.execute.
  destruct (Sampling.buildBlocks _ _ _ _) as [blocks|]; simpl; [|done].
  intros H. injection H as H. rewrite executeOn_run in H.
  pose proof (warmUp_trace (Sampling.etherscanApiKey this)
                (Sampling.etherscanDelayTime this) contractsBatch
                (Sampling.store this)) as Htw.
  destruct (warmUp _ _ _ _ _ _) as [[warm c'] tw]. simpl in Htw.
  exists blocks, tw. split; [done|]. split; [done|].
  destruct warm as [[]|e].
  - right. simpl in H.
    destruct (promiseAll _) as [cpr|sync err] eqn:Hall.
    + destruct (Sampling.postProcess _ _ _) as [resp|err] eqn:Hpost;
        injection H as <- <- <-; simpl; (split; [done|]).
      * eexists. split; [by rewrite <- !app_assoc|].
        right. exists cpr. rewrite Hall, Hpost. done.
      * exists []. split; [by rewrite app_nil_r|].
        right. exists cpr. rewrite Hall, Hpost. done.
    + injection H as <- <- <-; simpl. split; [done|].
      exists []. split; [by rewrite app_nil_r|].
      left. exists sync, err. by rewrite Hall.
  - left. injection H as <- <- <-. by exists e.
Qed.

Lemma callbacks_are_logs this blocks contractsBatch ev :
  ev ∈ concat (map me_callbacks
                 (concat (map group_methods
                    (map (Sampling.addContractToBatch this blocks)
                       contractsBatch)))) →
  ∃ address name, ev = EvLog (LogCallFailed address name).
Proof.
  intros H. apply elem_of_concat in H as (evs & Hev & Hevs).
  apply elem_of_map in Hevs as (m & -> & Hm).
  apply methods_origin in Hm as (item & method & _ & ->).
  unfold Sampling.addMethodToBatch in Hev.
  destruct (methodExists _ _ _); simpl in Hev; [|by apply elem_of_nil in Hev].
  destruct (findAbiMethod _ _); simpl in Hev; [|by apply elem_of_nil in Hev].
  apply elem_of_concat in Hev as (evs & Hev & Hevs).
  apply elem_of_map in Hevs as (be & -> & Hbe).
  apply elem_of_map in Hbe as (blockNumber & -> & _).
  unfold Sampling.addBlockToBatch in Hev.
  destruct (requestThrows _ _); simpl in Hev; [by apply elem_of_nil in Hev|].
  destruct (rp_err _); [|by apply elem_of_nil in Hev].
  apply list_elem_of_singleton in Hev. eauto.
Qed.

(** Every request that [execute] adds to the batch is the read, at one of
    the sampled blocks, of a requested method that exists on its target and
    was found in its ABI, with the arguments cut to the ABI's arity. *)
Lemma execute_call fuel contractsBatch callOptions this res this' t c :
  Sampling.execute md5 etherscan toString fuel contractsBatch callOptions this
  = Some (res, this', t) →
  EvBatchAdd c ∈ t →
  ∃ item method abiMethod blockNumber,
    requestedBy (Sampling.setStore (Sampling.store this') this)
      contractsBatch item method ∧
    methodExists (Sampling.web3 this)
      (Sampling.itemAbi (Sampling.setStore (Sampling.store this') this) item)
      (m_name method) = true ∧
    findAbiMethod
      (Sampling.itemAbi (Sampling.setStore (Sampling.store this') this) item)
      (m_name method) = Some abiMethod ∧
    c = {| c_address := Sampling.itemAddress item;
           c_method := m_name method;
           c_args := take (length (f_inputs abiMethod))
                       (default [] (m_args method));
           c_block := Some blockNumber |}.
Proof.
  intros Hrun Hc.
  destruct (execute_inv _ _ _ _ _ _ _ Hrun)
    as (blocks & tw & _ & Htw & [(e & _ & _ & ->)|(_ & summary & -> & Hsum)]).
  - rewrite Forall_forall in Htw. by apply Htw in Hc.
  - rewrite !elem_of_app, elem_of_cons, elem_of_app in Hc.
    destruct Hc as [Hc|[Hc|[Hc|[Hc|Hc]]]].
    + rewrite Forall_forall in Htw. by apply Htw in Hc.
    + apply elem_of_concat in Hc as (evs & Hc & Hevs).
      apply elem_of_map in Hevs as (m & -> & Hm).
      apply methods_origin in Hm as (item & method & Hreq & ->).
      apply addMethodToBatch_call in Hc
        as (Hex & abiMethod & blockNumber & Hfind & _ & ->).
      by exists item, method, abiMethod, blockNumber.
    + discriminate.
    + apply callbacks_are_logs in Hc as (? & ? & ?). discriminate.
    + destruct Hsum as [(? & ? & _ & _ & ->)|(? & _ & _ & ->)].
      * by apply elem_of_nil in Hc.
      * destruct (_ && _); [|by apply elem_of_nil in Hc].
        apply list_elem_of_singleton in Hc. discriminate.
Qed.

Lemma allMethodsOf_origin this (g : ContractGroup) address method :
  method ∈ Sampling.allMethodsOf this (default [] (g_readMethods g))
             (g_allReadMethods g) address →
  Sampling.filterOutConstants this address method = true ∧
  (method ∈ default [] (g_readMethods g) ∨
   (g_allReadMethods g = true ∧
    ∃ name, name ∈ Sampling.storeGetReadableAbiFields (Sampling.store this) address ∧
            method = formatField name)).
Proof.
  unfold Sampling.allMethodsOf. intros H.
  apply elem_of_filter_bool in H as [H Hf]. split; [done|].
  apply elem_of_app in H as [H|H]; [by left|]. right.
  destruct (g_allReadMethods g); [|by apply elem_of_nil in H].
  split; [done|]. apply elem_of_map in H as (name & -> & Hname).
  by exists name.
Qed.

(** A request for an address whose marker is set comes from a method that
    does not carry the flag. *)
Lemma marked_call_unflagged fuel contractsBatch callOptions this res this' t c :
  Sampling.execute md5 etherscan toString fuel contractsBatch callOptions this
  = Some (res, this', t) →
  EvBatchAdd c ∈ t →
  c_address c ∈ Sampling.readContracts this →
  unflaggedRequest (Sampling.store this') contractsBatch
    (c_address c) (c_method c).
Proof.
  intros Hrun Hc Hread.
  destruct (execute_call _ _ _ _ _ _ _ _ Hrun Hc)
    as (item & method & abiMethod & blockNumber & Hreq & _ & _ & ->).
  destruct Hreq as (g & items & Hg & _ & _ & Hmethod).
  apply allMethodsOf_origin in Hmethod as [Hfilter Horigin].
  simpl in *. exists g. split; [done|].
  destruct Horigin as [Hin|(Hall & name & Hname & ->)].
  - left. exists method. split_and!; [done|done|].
    unfold Sampling.filterOutConstants in Hfilter. simpl in Hfilter.
    rewrite (bool_decide_eq_true_2 _ Hread), andb_true_r in Hfilter.
    by destruct (m_constant method).
  - right. by split.
Qed.
End SamplingFacts.

(** For an address whose marker is set, the filter drops exactly the
    flagged methods. *)
Lemma allMethodsOf_marked (this : Sampling.Engine) readMethods allReadMethods
    address :
  address ∈ Sampling.readContracts this →
  Sampling.allMethodsOf this readMethods allReadMethods address
  = List.filter (λ method, negb (m_constant method))
      (readMethods ++
       if allReadMethods
       then map formatField
              (Sampling.storeGetReadableAbiFields (Sampling.store this) address)
       else []).
Proof.
  intros Hread. unfold Sampling.allMethodsOf.
  apply filter_ext. intros method. unfold Sampling.filterOutConstants.
  by rewrite (bool_decide_eq_true_2 _ Hread), andb_true_r.
Qed.

(** C2 (amended).  In the block-sampling engine the flag that is looked at
    is the [constant] property of the requested method, not of the ABI:
    for an address whose read marker is set when the group is expanded, the
    methods that reach the batch are the requested and auto-discovered ones
    without the flagged ones, and every request that [execute] adds to the
    batch for such an address comes from a method that does not carry the
    flag. *)
Theorem flagged_constants_filtered
    (md5 : ABI → string) (etherscan : string → string → option ABI)
    (toString : jsval → string) (fuel : nat)
    (contractsBatch : list ContractGroup)
    (callOptions : option Sampling.CallOptions) (this : Sampling.Engine)
    (res : result response) (this' : Sampling.Engine) (t : list event)
    (address : string) :
  Sampling.execute md5 etherscan toString fuel contractsBatch callOptions this
  = Some (res, this', t) →
  address ∈ Sampling.readContracts this →
  (∀ readMethods allReadMethods,
     Sampling.allMethodsOf (Sampling.setStore (Sampling.store this') this)
       readMethods allReadMethods address
     = List.filter (λ method, negb (m_constant method))
         (readMethods ++
          if allReadMethods
          then map formatField
                 (Sampling.storeGetReadableAbiFields (Sampling.store this') address)
          else [])) ∧
  (∀ c, EvBatchAdd c ∈ t → c_address c = address →
        unflaggedRequest (Sampling.store this') contractsBatch address
          (c_method c)).
Proof.
  intros Hrun Hread. split.
  - intros readMethods allReadMethods.
    by apply (allMethodsOf_marked
                (Sampling.setStore (Sampling.store this') this)).
  - intros c Hc <-. by apply (marked_call_unflagged md5 etherscan toString
                               fuel contractsBatch callOptions this res this' t).
Qed.

Lemma flagged_constants_filtered_witness :
  ∃ res this' t,
    Sampling.execute Ex.md5 Ex.etherscan Ex.toString 2 [ExC2.g; ExC2.g] None
      ExC2.engine = Some (res, this', t) ∧
    (∀ readMethods allReadMethods,
       Sampling.allMethodsOf
         (Sampling.setStore (Sampling.store this') ExC2.engine)
         readMethods allReadMethods "0xA"
       = List.filter (λ method, negb (m_constant method))
           (readMethods ++
            if allReadMethods
            then map formatField
                   (Sampling.storeGetReadableAbiFields (Sampling.store this') "0xA")
            else [])) ∧
    (∀ c, EvBatchAdd c ∈ t → c_address c = "0xA" →
          unflaggedRequest (Sampling.store this') [ExC2.g; ExC2.g] "0xA"
            (c_method c)).
Proof.
  eexists _, _, _. split; [vm_compute; reflexivity|].
  eapply (flagged_constants_filtered Ex.md5 Ex.etherscan Ex.toString 2
            [ExC2.g; ExC2.g] None ExC2.engine).
  - vm_compute. reflexivity.
  - vm_compute. reflexivity.
Defined.

(** C2, as stated, fails: [decimals] is marked constant in the ABI and the
    address has been read before, yet both groups read it, because the
    request itself does not carry the flag. *)
Lemma constant_read_once_as_stated_fails :
  match Sampling.execute Ex.md5 Ex.etherscan Ex.toString 2 [ExC2.g; ExC2.g]
          None ExC2.engine with
  | Some (_, this', t) =>
      findAbiMethod (Sampling.storeGetAbiFromCache (Sampling.store this') "0xA") "decimals"
      = Some (Ex.viewFn "decimals" 0) ∧
      f_constant (Ex.viewFn "decimals" 0) = true ∧
      readsOf "0xA" "decimals" 100 t = 2%nat
  | None => False
  end ∧
  ¬ constant_read_once_as_stated.
Proof.
  split; [vm_compute; by split_and!|].
  intros H.
  specialize (H Ex.md5 Ex.etherscan Ex.toString 2%nat [ExC2.g; ExC2.g] None
                ExC2.engine "0xA" "decimals" (Ex.viewFn "decimals" 0) 100).
  vm_compute in H. specialize (H eq_refl eq_refl).
  repeat (apply le_S_n in H). inversion H.
Qed.

(** ** The read markers *)

Lemma promiseAll_Resolved_all {A} (l : list (Settled A)) xs x :
  promiseAll l = Resolved xs → x ∈ l → ∃ y, x = Resolved y.
Proof.
  intros H Hx. apply promiseAll_Resolved in H. subst l.
  apply elem_of_map in Hx as (y & -> & _). by exists y.
Qed.

Section Markers.
Variable md5 : ABI → string.
Variable etherscan : string → string → option ABI.
Variable toString : jsval → string.



End Markers.



(** Within one batch on a fresh engine the flagged method is read for both
    groups: the markers are written after the batch has been expanded. *)
Example flagged_twice_in_one_batch :
  match Sampling.execute Ex.md5 Ex.etherscan Ex.toString 2
          [ExC10.g; ExC10.g] None ExC10.engine with
  | Some (_, _, t) => readsOf "0xA" "decimals" 100 t
  | None => O
  end = 2%nat.
Proof. vm_compute. reflexivity. Qed.

(** On the next [execute] of the same engine the flagged method is not read
    again, and the unflagged one is. *)
Example flagged_skipped_next_time :
  match Sampling.execute Ex.md5 Ex.etherscan Ex.toString 2
          [ExC10.g] None ExC10.engine' with
  | Some (_, _, t) =>
      (readsOf "0xA" "decimals" 100 t, readsOf "0xA" "totalSupply" 100 t)
  | None => (O, O)
  end = (0%nat, 1%nat).
Proof. vm_compute. reflexivity. Qed.



(** ** Grouping by namespace *)

Section GroupingFacts.
Variable toString : jsval → string.

Lemma groupBy_fold_lookup tree (acc : gmap string (list Node)) k :
  foldl (λ acc contract,
           <[namespaceKey toString contract :=
               default [] (acc !! namespaceKey toString contract) ++ [contract]]>
             acc) acc tree !! k
  = match filter (λ n, namespaceKey toString n = k) tree with
    | [] => acc !! k
    | l => Some (default [] (acc !! k) ++ l)
    end.
Proof.
  revert acc. induction tree as [|n tree IH]; intros acc; [done|].
  simpl. rewrite IH. destruct (decide (namespaceKey toString n = k)) as [<-|Hne].
  - rewrite filter_cons_True by done. rewrite lookup_insert_eq. simpl.
    destruct (filter _ tree); by rewrite <- ?app_assoc.
  - rewrite filter_cons_False by done. by rewrite lookup_insert_ne.
Qed.

Lemma groupBy_lookup tree k :
  groupBy toString tree !! k
  = match filter (λ n, namespaceKey toString n = k) tree with
    | [] => None
    | l => Some l
    end.
Proof.
  unfold groupBy. rewrite groupBy_fold_lookup, lookup_empty. simpl.
  by destruct (filter _ tree).
Qed.

Lemma groupByNamespaceTree_lookup tree k :
  groupByNamespaceTree toString tree !! k
  = match filter (λ n, namespaceKey toString n = k) tree with
    | [] => None
    | l => Some (map omitNamespace l)
    end.
Proof.
  unfold groupByNamespaceTree, removeNamespaceKeys.
  rewrite lookup_fmap, groupBy_lookup. by destruct (filter _ tree).
Qed.

(** The nodes of the grouped response are the nodes of the tree without
    their [namespace] property. *)
Lemma grouped_nodes tree n :
  n ∈ responseNodes (Grouped (groupByNamespaceTree toString tree)) →
  ∃ n0, n0 ∈ tree ∧ n = omitNamespace n0.
Proof.
  simpl. intros H. apply elem_of_concat in H as (l & Hn & Hl).
  apply elem_of_map in Hl as ([k l'] & -> & Hkl). simpl in Hn.
  apply elem_of_map_to_list in Hkl. rewrite groupByNamespaceTree_lookup in Hkl.
  destruct (filter _ tree) as [|n1 l1] eqn:Hf; [done|].
  injection Hkl as <-.
  change (n ∈ map omitNamespace (n1 :: l1)) in Hn.
  apply elem_of_map in Hn as (n0 & -> & Hn0).
  exists n0. split; [|done].
  rewrite <- Hf in Hn0. by apply list_elem_of_filter in Hn0 as [_ ?].
Qed.

Lemma flattenNamespaces_insert (m : gmap string (list Node)) k l :
  m !! k = None →
  flattenNamespaces (<[k := l]> m)
  ≡ₚ (attachNamespace k <$> l) ++ flattenNamespaces m.
Proof.
  intros Hk. unfold flattenNamespaces.
  rewrite (map_to_list_insert m k l Hk). by rewrite bind_cons.
Qed.

Lemma flattenNamespaces_lookup (m : gmap string (list Node)) k :
  flattenNamespaces m
  ≡ₚ (attachNamespace k <$> default [] (m !! k)) ++
     flattenNamespaces (delete k m).
Proof.
  destruct (m !! k) as [l|] eqn:Hk; simpl.
  - rewrite <- (insert_delete_id m k l Hk) at 1.
    apply flattenNamespaces_insert, lookup_delete_eq.
  - by rewrite delete_id.
Qed.

Lemma attach_omit n k :
  n !! "namespace" = Some (FStr k) → attachNamespace k (omitNamespace n) = n.
Proof. intros H. unfold attachNamespace, omitNamespace. by apply insert_delete_id. Qed.

Lemma flatten_group_step (acc : gmap string (list Node)) n k :
  n !! "namespace" = Some (FStr k) →
  flattenNamespaces
    (removeNamespaceKeys (<[k := default [] (acc !! k) ++ [n]]> acc))
  ≡ₚ flattenNamespaces (removeNamespaceKeys acc) ++ [n].
Proof.
  intros Hn. unfold removeNamespaceKeys. rewrite fmap_insert.
  rewrite <- insert_delete_eq.
  rewrite flattenNamespaces_insert by apply lookup_delete_eq.
  rewrite (flattenNamespaces_lookup (map omitNamespace <$> acc) k).
  rewrite lookup_fmap. rewrite map_app, fmap_app. simpl.
  rewrite (attach_omit n k Hn).
  destruct (acc !! k) as [d|]; simpl.
  - rewrite <- !app_assoc. apply Permutation_app_head.
    apply (Permutation_app_comm [n]).
  - apply (Permutation_app_comm [n]).
Qed.

Lemma flatten_group_fold tree (acc : gmap string (list Node)) :
  Forall hasNamespace tree →
  flattenNamespaces
    (removeNamespaceKeys
       (foldl (λ acc contract,
                 <[namespaceKey toString contract :=
                     default [] (acc !! namespaceKey toString contract)
                     ++ [contract]]> acc) acc tree))
  ≡ₚ flattenNamespaces (removeNamespaceKeys acc) ++ tree.
Proof.
  intros Htree. revert acc.
  induction Htree as [|n tree [k Hk] _ IH]; intros acc; simpl.
  - by rewrite app_nil_r.
  - rewrite IH. unfold namespaceKey at 1 2. rewrite Hk.
    rewrite (flatten_group_step acc n k Hk). by rewrite <- app_assoc.
Qed.
End GroupingFacts.

(** C9 (amended).  Grouping partitions the tree by the nodes' namespace:
    the bucket of a namespace holds, in their order in the tree and without
    their [namespace] property, the nodes that carry it; and when every
    node still has its namespace label, flattening the grouped tree gives
    back the nodes of the flat tree, up to their order. *)
Theorem group_then_flatten (toString : jsval → string) (tree : list Node) :
  Forall hasNamespace tree →
  (∀ k, groupByNamespaceTree toString tree !! k
        = match filter (λ n, namespaceKey toString n = k) tree with
          | [] => None
          | l => Some (map omitNamespace l)
          end) ∧
  (∀ n, n ∈ responseNodes (Grouped (groupByNamespaceTree toString tree)) →
        n !! "namespace" = None) ∧
  flattenNamespaces (groupByNamespaceTree toString tree) ≡ₚ tree.
Proof.
  intros Htree. split_and!.
  - apply groupByNamespaceTree_lookup.
  - intros n Hn. apply grouped_nodes in Hn as (n0 & _ & ->).
    apply lookup_delete_eq.
  - unfold groupByNamespaceTree, groupBy.
    by rewrite (flatten_group_fold toString tree ∅ Htree).
Qed.

Example three_groups_tree :
  ExC9.tree
  = [ExC9.node "0xA1" "a"; ExC9.node "0xA2" "b"; ExC9.node "0xA3" "a"].
Proof. vm_compute. reflexivity. Qed.

Lemma three_groups_namespaced : Forall hasNamespace ExC9.tree.
Proof.
  rewrite three_groups_tree.
  repeat constructor; eexists; vm_compute; reflexivity.
Qed.

Lemma group_then_flatten_witness :
  (∀ k, groupByNamespaceTree Ex.toString ExC9.tree !! k
        = match filter (λ n, namespaceKey Ex.toString n = k) ExC9.tree with
          | [] => None
          | l => Some (map omitNamespace l)
          end) ∧
  (∀ n, n ∈ responseNodes (Grouped (groupByNamespaceTree Ex.toString ExC9.tree)) →
        n !! "namespace" = None) ∧
  flattenNamespaces (groupByNamespaceTree Ex.toString ExC9.tree) ≡ₚ ExC9.tree.
Proof.
  apply (group_then_flatten Ex.toString ExC9.tree).
  rewrite three_groups_tree.
  repeat constructor; eexists; vm_compute; reflexivity.
Defined.

(** C9, as stated, fails: the tree of three groups under the namespaces a,
    b, a holds the nodes of 0xA1, 0xA2, 0xA3 in that order; grouped, the two
    nodes of namespace a share a bucket, and flattening the buckets cannot
    put the node of 0xA2 back between them. *)
Lemma roundtrip_as_stated_fails :
  ExC9.tree
  = [ExC9.node "0xA1" "a"; ExC9.node "0xA2" "b"; ExC9.node "0xA3" "a"] ∧
  flattenNamespaces (groupByNamespaceTree Ex.toString ExC9.tree)
  = [ExC9.node "0xA1" "a"; ExC9.node "0xA3" "a"; ExC9.node "0xA2" "b"] ∧
  ¬ roundtrip_as_stated.
Proof.
  split_and!; [vm_compute; reflexivity|vm_compute; reflexivity|].
  intros H. specialize (H Ex.toString ExC9.tree three_groups_namespaced).
  vm_compute in H. discriminate H.
Qed.

(** ** Flattening *)

Lemma result_mapM_Forall2 {A B} (f : A → result B) l l' :
  result_mapM f l = Ok l' → Forall2 (λ x y, f x = Ok y) l l'.
Proof.
  revert l'. induction l as [|x l IH]; intros l' H; simpl in H.
  - injection H as <-. constructor.
  - destruct (f x) as [y|] eqn:Hx; simpl in H; [|done].
    destruct (result_mapM f l) as [ys|]; simpl in H; [|done].
    injection H as <-. constructor; [done|by apply IH].
Qed.

Lemma result_mapM_id {A} (f : A → result A) l :
  Forall (λ x, f x = Ok x) l → result_mapM f l = Ok l.
Proof.
  induction 1 as [|x l Hx _ IH]; simpl; [done|]. by rewrite Hx, IH.
Qed.

(** [flattenArgs] rewrites each property on its own and keeps the keys. *)
Lemma flattenArgs_lookup simplify (n n' : Node) k :
  Sampling.flattenArgs simplify n = Ok n' →
  match n !! k with
  | Some f => ∃ f', Sampling.flattenArg simplify f = Ok f' ∧ n' !! k = Some f'
  | None => n' !! k = None
  end.
Proof.
  unfold Sampling.flattenArgs. case_decide as Hall; [|done].
  intros [= <-]. rewrite lookup_omap, lookup_fmap.
  destruct (n !! k) as [f|] eqn:Hk; simpl; [|done].
  specialize (Hall k (Sampling.flattenArg simplify f)).
  rewrite lookup_fmap, Hk in Hall. specialize (Hall eq_refl).
  destruct (Sampling.flattenArg simplify f) as [f'|]; [|done].
  by exists f'.
Qed.

(** The three outcomes of simplifying an entry with one bucket and one
    block sample, and the fallback with more samples. *)
Lemma flattenArg_single_truthy sample input args :
  truthy (bs_value sample) = true →
  Sampling.flattenArg true
    (FBuckets [{| ma_value := None; ma_values := Some [Some sample];
                  ma_input := input; ma_args := args |}])
  = Ok (FValue (bs_value sample)).
Proof. intros H. simpl. by rewrite H. Qed.

Lemma flattenArg_single_falsy sample input args :
  truthy (bs_value sample) = false →
  Sampling.flattenArg true
    (FBuckets [{| ma_value := None; ma_values := Some [Some sample];
                  ma_input := input; ma_args := args |}])
  = Ok FUndefined.
Proof. intros H. simpl. by rewrite H. Qed.

Lemma flattenArg_unsimplified sample input args :
  Sampling.flattenArg false
    (FBuckets [{| ma_value := None; ma_values := Some [Some sample];
                  ma_input := input; ma_args := args |}])
  = Ok (FBuckets [{| ma_value := Some (bs_value sample); ma_values := None;
                     ma_input := input; ma_args := args |}]).
Proof. reflexivity. Qed.

Lemma flattenVal_many value samples :
  ma_values value = Some samples → length samples ≠ 1%nat →
  Sampling.flattenVal value = Ok value.
Proof.
  intros Hv Hlen. unfold Sampling.flattenVal. rewrite Hv.
  by destruct samples as [|? [|??]].
Qed.

(** C7: where the code parts from the claim.  With [simplifyResponse] on, a
    single address and the single zero-argument method [paused], which
    returns the scalar [false], the method entry of the result is undefined
    and not that value, whereas a method that returns [true] gives the
    value. *)
Theorem simplified_falsy_value_is_lost :
  (λ run, run.1.1) <$>
    Sampling.execute Ex.md5 Ex.etherscan Ex.toString 2 ExC7.batch None
      (ExC7.engine (JBool false))
  = Some (Ok (Flat [ExC7.node FUndefined])) ∧
  (λ run, run.1.1) <$>
    Sampling.execute Ex.md5 Ex.etherscan Ex.toString 2 ExC7.batch None
      (ExC7.engine (JBool true))
  = Some (Ok (Flat [ExC7.node (FValue (JBool true))])).
Proof. split; vm_compute; reflexivity. Qed.

(** ** The tree that [execute] returns *)

Lemma Forall2_elem_r {A B} (P : A → B → Prop) l l' y :
  Forall2 P l l' → y ∈ l' → ∃ x, x ∈ l ∧ P x y.
Proof.
  induction 1 as [|x y' l l' Hxy _ IH]; intros Hy.
  - by apply elem_of_nil in Hy.
  - apply elem_of_cons in Hy as [->|Hy].
    + exists x. split; [apply list_elem_of_here|done].
    + destruct (IH Hy) as (x0 & Hx0 & HP). exists x0.
      split; [by apply list_elem_of_further|done].
Qed.

Lemma addBlockToBatch_sample this address name newArgs blockNumber s :
  Sampling.be_sample
    (Sampling.addBlockToBatch this address name newArgs blockNumber) = Some s →
  bs_blockNumber s = blockNumber.
Proof.
  unfold Sampling.addBlockToBatch. destruct (requestThrows _ _); simpl; [done|].
  by intros [= <-].
Qed.

(** A method that was read exists on its target, and its result holds one
    sample per block, in the order of the blocks. *)
Lemma addMethodToBatch_result this blocks abi address method r :
  me_settled (Sampling.addMethodToBatch this blocks abi address method)
  = Resolved (Some r) →
  methodExists (Sampling.web3 this) abi (m_name method) = true ∧
  r_method r = m_name method ∧ r_value r = None ∧
  ∃ samples, r_values r = Some samples ∧ sampledAt blocks samples.
Proof.
  unfold Sampling.addMethodToBatch.
  destruct (methodExists _ _ _); simpl; [|done].
  destruct (findAbiMethod abi (m_name method)) as [abiMethod|]; simpl; [|done].
  intros [= <-]. simpl. split_and!; [done..|].
  eexists. split; [done|]. unfold sampledAt. rewrite map_map.
  induction blocks as [|b blocks IH]; simpl; constructor; [|done].
  intros s. apply addBlockToBatch_sample.
Qed.

Section TreeFacts.
Variable md5 : ABI → string.
Variable etherscan : string → string → option ABI.
Variable toString : jsval → string.

(** How the response of a returning [execute] came about. *)
Lemma execute_tree fuel contractsBatch callOptions this resp this' t :
  Sampling.execute md5 etherscan toString fuel contractsBatch callOptions this
  = Some (Ok resp, this', t) →
  ∃ blocks contractsPromiseResult tree tree',
    Sampling.buildBlocks fuel (getBlockNumber (Sampling.web3 this))
      (default 1 (callOptions ≫= Sampling.blockHeight))
      (default 1 (callOptions ≫= Sampling.blockResolution)) = Some blocks ∧
    promiseAll
      (map group_settled
         (map (Sampling.addContractToBatch
                 (Sampling.setStore (Sampling.store this') this) blocks)
            contractsBatch)) = Resolved contractsPromiseResult ∧
    reduceContractsState contractsPromiseResult = Ok tree ∧
    Forall2 (λ n n', Sampling.flattenArgs (Sampling.simplifyResponse this) n
                     = Ok n') tree tree' ∧
    resp = if Sampling.groupByNamespace this
           then Grouped (groupByNamespaceTree toString tree')
           else Flat tree'.
Proof.
  intros Hrun.
  destruct (execute_inv _ _ _ _ _ _ _ _ _ _ Hrun)
    as (blocks & tw & Hblocks & _ & [(e & He & _)|(_ & summary & _ & Hsum)]);
    [done|].
  destruct Hsum as [(? & ? & _ & ? & _)|(cpr & Hall & Hpost & _)]; [done|].
  unfold Sampling.postProcess in Hpost.
  destruct (reduceContractsState cpr) as [tree|] eqn:Htree; simpl in Hpost;
    [|done].
  destruct (result_mapM _ tree) as [tree'|] eqn:Hflat; simpl in Hpost; [|done].
  injection Hpost as ->.
  exists blocks, cpr, tree, tree'. split_and!; [done..| |done].
  by apply result_mapM_Forall2.
Qed.

(** Every result in the fold is the read of a requested method on its
    address. *)
Lemma results_origin this blocks contractsBatch contractsPromiseResult
    address r :
  promiseAll
    (map group_settled
       (map (Sampling.addContractToBatch this blocks) contractsBatch))
  = Resolved contractsPromiseResult →
  (address, r) ∈ resultsOf contractsPromiseResult →
  ∃ item method,
    requestedBy this contractsBatch item method ∧
    Sampling.itemAddress item = address ∧
    me_settled (Sampling.addMethodToBatch this blocks
                  (Sampling.itemAbi this item) (Sampling.itemAddress item)
                  method) = Resolved (Some r).
Proof.
  intros Hall Hr.
  destruct (resultsOf_settled _ _ _ _ Hall Hr)
    as (addresses & a & m & Hgroup & Ha & Hm & Haddr & Hms).
  apply elem_of_map in Hgroup as (g & Hexp & Hg).
  unfold Sampling.addContractToBatch in Hexp.
  destruct (objectToIterateOver g) as [items|] eqn:Hitems; simpl in Hexp;
    [|done].
  injection Hexp as ->.
  apply elem_of_map in Ha as (item & -> & Hitem). simpl in *.
  apply elem_of_map in Hm as (method & -> & Hmethod).
  exists item, method. split_and!; [|done..]. by exists g, items.
Qed.

Lemma response_nodes (byNamespace : bool) tree' n :
  n ∈ responseNodes (if byNamespace
                     then Grouped (groupByNamespaceTree toString tree')
                     else Flat tree') →
  ∃ n0, n0 ∈ tree' ∧ (n = n0 ∨ n = omitNamespace n0).
Proof.
  destruct byNamespace.
  - intros H. apply grouped_nodes in H as (n0 & Hn0 & ->). eauto.
  - simpl. eauto.
Qed.

(** Every property of every node of the response is the flattening of a
    property that the fold built for the node's address. *)
Lemma execute_node fuel contractsBatch callOptions this resp this' t n :
  Sampling.execute md5 etherscan toString fuel contractsBatch callOptions this
  = Some (Ok resp, this', t) →
  n ∈ responseNodes resp →
  ∃ blocks address,
    Sampling.buildBlocks fuel (getBlockNumber (Sampling.web3 this))
      (default 1 (callOptions ≫= Sampling.blockHeight))
      (default 1 (callOptions ≫= Sampling.blockResolution)) = Some blocks ∧
    ∀ k f', n !! k = Some f' →
      ∃ f, Sampling.flattenArg (Sampling.simplifyResponse this) f = Ok f' ∧
           readField (Sampling.setStore (Sampling.store this') this)
             contractsBatch blocks address k f.
Proof.
  intros Hrun Hn.
  destruct (execute_tree _ _ _ _ _ _ _ Hrun)
    as (blocks & cpr & tree & tree' & Hblocks & Hall & Htree & Hflat & ->).
  apply response_nodes in Hn as (n0 & Hn0 & Hn).
  destruct (Forall2_elem_r _ _ _ _ Hflat Hn0) as (n1 & Hn1 & Hfl).
  pose proof (reduceContractsState_folded (resultsOf cpr) cpr tree
                (λ x H, H) Htree) as Hfolded.
  unfold foldedTree in Hfolded. rewrite Forall_forall in Hfolded.
  destruct (Hfolded n1 Hn1) as [address Hnode].
  exists blocks, address. split; [done|].
  intros k f' Hk.
  assert (Hk0 : n0 !! k = Some f').
  { destruct Hn as [->| ->]; [done|].
    unfold omitNamespace in Hk. by apply lookup_delete_Some in Hk as [_ ?]. }
  pose proof (flattenArgs_lookup _ _ _ k Hfl) as Hlook.
  destruct (n1 !! k) as [f|] eqn:Hk1; [|congruence].
  destruct Hlook as (f'' & Hf & Hk0'). rewrite Hk0 in Hk0'.
  injection Hk0' as <-. exists f. split; [done|].
  pose proof (Hnode k f Hk1) as Hfield.
  destruct f as [s|l| | |]; simpl in *; try done.
  destruct Hfield as [Hne Hl]. split; [done|].
  eapply Forall_impl; [exact Hl|]. simpl.
  intros ma (r & Hr & Hmethod & ->).
  destruct (results_origin _ _ _ _ _ _ Hall Hr)
    as (item & method & Hreq & Haddr & Hms).
  by exists r, item, method.
Qed.
End TreeFacts.

(** C6.  A method that is not on the callable surface of its target is
    skipped silently: its promise resolves with nothing, it adds no request
    to the batch and counts for nothing, and the fold ignores it; so every
    request that [execute] adds to the batch names a method that exists on
    its target, and every property of a node of the returned tree other
    than [address] and [namespace] is the name of a method that was
    requested for the node's address and exists on that target. *)
Theorem missing_method_skipped
    (md5 : ABI → string) (etherscan : string → string → option ABI)
    (toString : jsval → string) (fuel : nat)
    (contractsBatch : list ContractGroup)
    (callOptions : option Sampling.CallOptions) (this : Sampling.Engine)
    (resp : response) (this' : Sampling.Engine) (t : list event) :
  Sampling.execute md5 etherscan toString fuel contractsBatch callOptions this
  = Some (Ok resp, this', t) →
  let this1 := Sampling.setStore (Sampling.store this') this in
  (∀ blocks abi address method,
     methodExists (Sampling.web3 this) abi (m_name method) = false →
     Sampling.addMethodToBatch this1 blocks abi address method
     = {| me_settled := Resolved None; me_sync := [];
          me_callbacks := []; me_counted := 0 |}) ∧
  (∀ address namespace acc,
     addMethodResults address namespace acc None = Ok acc) ∧
  (∀ c, EvBatchAdd c ∈ t →
        ∃ item method,
          requestedBy this1 contractsBatch item method ∧
          Sampling.itemAddress item = c_address c ∧
          m_name method = c_method c ∧
          methodExists (Sampling.web3 this) (Sampling.itemAbi this1 item)
            (c_method c) = true) ∧
  (∀ n, n ∈ responseNodes resp →
        ∃ address,
          (∀ s, n !! "address" = Some (FStr s) → s = address) ∧
          ∀ k, is_Some (n !! k) →
               k = "address" ∨ k = "namespace" ∨
               ∃ item method,
                 requestedBy this1 contractsBatch item method ∧
                 Sampling.itemAddress item = address ∧
                 m_name method = k ∧
                 methodExists (Sampling.web3 this)
                   (Sampling.itemAbi this1 item) k = true).
Proof.
  intros Hrun this1. split_and!.
  - intros blocks abi address method Hmissing.
    unfold Sampling.addMethodToBatch. simpl. by rewrite Hmissing.
  - done.
  - intros c Hc.
    destruct (execute_call _ _ _ _ _ _ _ _ _ _ _ Hrun Hc)
      as (item & method & abiMethod & blockNumber & Hreq & Hex & _ & ->).
    by exists item, method.
  - intros n Hn.
    destruct (execute_node _ _ _ _ _ _ _ _ _ _ _ Hrun Hn)
      as (blocks & address & _ & Hfields).
    exists address. split.
    + intros s Hs. destruct (Hfields _ _ Hs) as (f & Hflat & Hf).
      destruct f as [s'|l| | |]; simpl in *; try done.
      * injection Hflat as ->. destruct Hf as [[_ ?]|?]; done.
      * destruct (result_mapM Sampling.flattenVal l) as [l'|]; simpl in Hflat;
          [|done].
        destruct l' as [|b [|??]]; try done.
        destruct (Sampling.simplifyResponse this); [|done].
        destruct (truthy _); [done|]. by destruct (ma_values b).
    + intros k [f' Hk]. destruct (Hfields _ _ Hk) as (f & _ & Hf).
      destruct f as [s|l| | |]; simpl in Hf; try done.
      * destruct Hf as [[? _]|?]; auto.
      * right. right. destruct Hf as [Hne Hl].
        destruct l as [|ma l]; [done|].
        apply Forall_cons in Hl as [(r & item & method & _ & Hk' & Hreq & Haddr & Hms) _].
        apply addMethodToBatch_result in Hms as (Hex & Hm & _).
        exists item, method. split_and!; [done|done|congruence|].
        by rewrite <- Hk', Hm.
Qed.

Lemma missing_method_skipped_witness :
  ∃ resp this' t,
    Sampling.execute Ex.md5 Ex.etherscan Ex.toString 2 ExC6.batch None
      ExC6.engine = Some (Ok resp, this', t) ∧
    let this1 := Sampling.setStore (Sampling.store this') ExC6.engine in
    (∀ blocks abi address method,
       methodExists (Sampling.web3 ExC6.engine) abi (m_name method) = false →
       Sampling.addMethodToBatch this1 blocks abi address method
       = {| me_settled := Resolved None; me_sync := [];
            me_callbacks := []; me_counted := 0 |}) ∧
    (∀ address namespace acc,
       addMethodResults address namespace acc None = Ok acc) ∧
    (∀ c, EvBatchAdd c ∈ t →
          ∃ item method,
            requestedBy this1 ExC6.batch item method ∧
            Sampling.itemAddress item = c_address c ∧
            m_name method = c_method c ∧
            methodExists (Sampling.web3 ExC6.engine)
              (Sampling.itemAbi this1 item) (c_method c) = true) ∧
    (∀ n, n ∈ responseNodes resp →
          ∃ address,
            (∀ s, n !! "address" = Some (FStr s) → s = address) ∧
            ∀ k, is_Some (n !! k) →
                 k = "address" ∨ k = "namespace" ∨
                 ∃ item method,
                   requestedBy this1 ExC6.batch item method ∧
                   Sampling.itemAddress item = address ∧
                   m_name method = k ∧
                   methodExists (Sampling.web3 ExC6.engine)
                     (Sampling.itemAbi this1 item) k = true).
Proof.
  eexists _, _, _. split; [vm_compute; reflexivity|].
  eapply (missing_method_skipped Ex.md5 Ex.etherscan Ex.toString 2
            ExC6.batch None ExC6.engine).
  vm_compute. reflexivity.
Defined.

(** The request for the missing method changes nothing: the run is the run
    of the batch without it. *)
Example missing_method_changes_nothing :
  Sampling.execute Ex.md5 Ex.etherscan Ex.toString 2 ExC6.batch None
    ExC6.engine
  = Sampling.execute Ex.md5 Ex.etherscan Ex.toString 2
      [Ex.group None ["0xA"] (Some Ex.erc20) [Ex.method "totalSupply"]] None
      ExC6.engine.
Proof. vm_compute. reflexivity. Qed.

(** ** Block samples in the tree *)

Lemma flattenArg_samples this contractsBatch blocks address k simplify f f' :
  length blocks ≠ 1%nat →
  readField this contractsBatch blocks address k f →
  Sampling.flattenArg simplify f = Ok f' →
  holdsSamples blocks f'.
Proof.
  intros Hlen Hf. destruct f as [s|l| | |]; simpl in Hf; try done.
  - by intros [= <-].
  - destruct Hf as [_ Hl]. simpl.
    assert (Hbuckets : Forall (λ ma, ma_value ma = None ∧
                                ∃ samples, ma_values ma = Some samples ∧
                                           sampledAt blocks samples) l).
    { eapply Forall_impl; [exact Hl|]. simpl.
      intros ma (r & item & method & -> & _ & _ & _ & Hms).
      apply addMethodToBatch_result in Hms as (_ & _ & Hv & samples & Hs & Hat).
      simpl. split; [done|]. by exists samples. }
    rewrite (result_mapM_id Sampling.flattenVal l).
    + simpl. destruct l as [|b [|b' l]].
      * intros [= <-]. constructor.
      * apply Forall_cons in Hbuckets as [(Hv & samples & Hs & Hat) _].
        destruct simplify.
        -- rewrite Hv, Hs. simpl. by intros [= <-].
        -- intros [= <-]. simpl. constructor; [|constructor].
           by exists samples.
      * intros [= <-]. simpl. eapply Forall_impl; [exact Hbuckets|].
        simpl. by intros ma [_ ?].
    + eapply Forall_impl; [exact Hbuckets|]. simpl.
      intros ma (_ & samples & Hs & Hat).
      apply (flattenVal_many ma samples Hs).
      unfold sampledAt in Hat. apply Forall2_length in Hat. congruence.
Qed.

(** C1 (amended).  With [blockHeight >= 1] and [blockResolution >= 1] the
    loop of [execute] ends and samples the chain at the current height and
    then every [blockResolution] blocks backward, as long as the distance
    stays below [blockHeight]: [sampleCount] samples, that is the integer
    ceiling of blockHeight / blockResolution and not [blockHeight] of them,
    emitted oldest first, in strictly increasing block-number order.  With
    [blockResolution = 1] these are the [blockHeight] samples of the
    specification.  [execute] then ends, and when there are at least two
    samples every method entry of the returned tree holds exactly one
    sample per sampled block, in that order. *)
Theorem block_samples_oldest_first
    (md5 : ABI → string) (etherscan : string → string → option ABI)
    (toString : jsval → string) (fuel : nat)
    (contractsBatch : list ContractGroup)
    (callOptions : option Sampling.CallOptions) (this : Sampling.Engine) :
  let blockHeight := default 1 (callOptions ≫= Sampling.blockHeight) in
  let blockResolution := default 1 (callOptions ≫= Sampling.blockResolution) in
  let currentBlockNumber := getBlockNumber (Sampling.web3 this) in
  let blocks :=
    reverse (stepBack currentBlockNumber blockResolution
               (sampleCount blockHeight blockResolution)) in
  1 ≤ blockHeight → 1 ≤ blockResolution → (Z.to_nat blockHeight < fuel)%nat →
  Sampling.buildBlocks fuel currentBlockNumber blockHeight blockResolution
  = Some blocks ∧
  length blocks = sampleCount blockHeight blockResolution ∧
  StronglySorted Z.lt blocks ∧
  (blockResolution = 1 →
   blocks = samplesAsSpecified currentBlockNumber blockHeight blockResolution ∧
   length blocks = Z.to_nat blockHeight) ∧
  ∃ res this' t,
    Sampling.execute md5 etherscan toString fuel contractsBatch callOptions this
    = Some (res, this', t) ∧
    ((2 ≤ sampleCount blockHeight blockResolution)%nat →
     ∀ resp, res = Ok resp →
       Forall (map_Forall (λ _ f, holdsSamples blocks f)) (responseNodes resp)).
Proof.
  intros h r cur blocks Hh Hr Hfuel.
  assert (Hcount : (sampleCount h r < fuel)%nat).
  { pose proof (sampleCount_le h r Hh Hr). lia. }
  assert (Hblocks : Sampling.buildBlocks fuel cur h r = Some blocks).
  { by apply buildBlocks_steps. }
  assert (Hlen : length blocks = sampleCount h r).
  { subst blocks. by rewrite length_reverse, stepBack_length. }
  split_and!; [done|done|by apply stepBack_increasing| |].
  - intros Hr1. subst blocks. unfold samplesAsSpecified, sampleCount.
    rewrite Hr1 in *. replace (h + 1 - 1) with h by lia.
    rewrite Z.div_1_r. split; [done|].
    by rewrite length_reverse, stepBack_length.
  - destruct (Sampling.execute md5 etherscan toString fuel contractsBatch
                callOptions this) as [[[res this'] t]|] eqn:Hrun.
    + exists res, this', t. split; [done|].
      intros Hmany resp ->. apply Forall_forall. intros n Hn.
      destruct (execute_node _ _ _ _ _ _ _ _ _ _ _ Hrun Hn)
        as (blocks' & address & Hblocks' & Hfields).
      fold h r cur in Hblocks'. rewrite Hblocks in Hblocks'.
      injection Hblocks' as <-.
      intros k f' Hk. destruct (Hfields k f' Hk) as (f & Hflat & Hf).
      eapply flattenArg_samples; [|exact Hf|exact Hflat]. lia.
    + exfalso. unfold Sampling.execute in Hrun. fold h r cur in Hrun.
      by rewrite Hblocks in Hrun.
Qed.

Lemma block_samples_oldest_first_witness :
  Sampling.buildBlocks 4 100 3 1 = Some [98; 99; 100] ∧
  length [98; 99; 100] = sampleCount 3 1 ∧
  StronglySorted Z.lt [98; 99; 100] ∧
  (1 = 1 →
   [98; 99; 100] = samplesAsSpecified 100 3 1 ∧
   length [98; 99; 100] = Z.to_nat 3) ∧
  ∃ res this' t,
    Sampling.execute Ex.md5 Ex.etherscan Ex.toString 4 ExC1.batch
      ExC1.callOptions ExC1.engine = Some (res, this', t) ∧
    ((2 ≤ sampleCount 3 1)%nat →
     ∀ resp, res = Ok resp →
       Forall (map_Forall (λ _ f, holdsSamples [98; 99; 100] f))
         (responseNodes resp)).
Proof.
  apply (block_samples_oldest_first Ex.md5 Ex.etherscan Ex.toString 4
           ExC1.batch ExC1.callOptions ExC1.engine).
  - simpl. lia.
  - simpl. lia.
  - simpl. lia.
Defined.

(** The scenario of the specification, run: one address node whose
    [totalSupply] entry holds the samples of blocks 98, 99 and 100. *)
Example three_samples_in_order :
  (λ run, run.1.1) <$>
    Sampling.execute Ex.md5 Ex.etherscan Ex.toString 4 ExC1.batch
      ExC1.callOptions ExC1.engine
  = Some (Ok (Flat
      [<["totalSupply" :=
           FBuckets [{| ma_value := None;
                        ma_values := Some [ExC1.sample 98; ExC1.sample 99;
                                           ExC1.sample 100];
                        ma_input := None; ma_args := None |}]]>
         (<["namespace" := FStr "default"]>
            (<["address" := FStr "0xA"]> ∅))])).
Proof. vm_compute. reflexivity. Qed.

(** A stride of zero never ends the loop: [execute] returns with no
    amount of fuel. *)
Lemma execute_diverges md5 etherscan toString fuel contractsBatch this h r :
  0 < h → r ≤ 0 →
  Sampling.execute md5 etherscan toString fuel contractsBatch
    (Some {| Sampling.blockHeight := Some h;
             Sampling.blockResolution := Some r |}) this = None.
Proof.
  intros Hh Hr. unfold Sampling.execute, Sampling.buildBlocks. simpl.
  by rewrite blocksLoop_diverges.
Qed.

(** ** Per-call transport errors *)



Lemma Forall_concat {A} (P : A → Prop) (ls : list (list A)) :
  Forall (Forall P) ls → Forall P (concat ls).
Proof.
  induction 1 as [|l ls Hl _ IH]; simpl; [constructor|by apply Forall_app].
Qed.

Section Silenced.
Variable this : Sampling.Engine.
Variable blocks : list Z.


End Silenced.












Section SilencedRun.
Variable md5 : ABI → string.
Variable etherscan : string → string → option ABI.
Variable toString : jsval → string.




End SilencedRun.




(** The same batch and transport on the block-sampling engine: a tree, in
    which the failed call's value is undefined and the other call's value
    is there, and one log line. *)
Example failed_call_leaves_the_rest :
  (λ run, (run.1.1, List.filter (λ ev, negb (notCallFailed ev)) run.2)) <$>
    Sampling.execute Ex.md5 Ex.etherscan Ex.toString 2 ExC4.batch None
      (Ex.sampling ExC4.failing false false ∅)
  = Some (Ok (Flat
       [<["totalSupply" :=
            FBuckets [{| ma_value := Some (JNum 100); ma_values := None;
                         ma_input := None; ma_args := None |}]]>
          (<["decimals" :=
               FBuckets [{| ma_value := Some JUndefined; ma_values := None;
                            ma_input := None; ma_args := None |}]]>
             (<["namespace" := FStr "default"]>
                (<["address" := FStr "0xA"]> ∅)))]),
          [EvLog (LogCallFailed "0xA" "decimals")]).
Proof. vm_compute. reflexivity. Qed.

(** * Further properties of the code *)

(** ** The ABI cache, operation by operation *)

Lemma forM__state {S A} (I : S → Prop) (f : A → M S unit) l :
  (∀ x s, I s → I (f x s).1.2) → ∀ s, I s → I (forM_ l f s).1.2.
Proof.
  intros Hf. induction l as [|x l IH]; intros s Hs; simpl; [done|].
  rewrite run_bind. specialize (Hf x s Hs).
  destruct (f x s) as [[[[]|e] s1] t1]; simpl in *; [|done].
  specialize (IH s1 Hf). by destruct (forM_ l f s1) as [[r s2] t2].
Qed.

Section CacheOperations.
Variable md5 : ABI → string.
Variable etherscan : string → string → option ABI.
Variable key : option string.
Variable delay : Z.

(** [addAbiToCache], case by case. *)
Lemma addAbiToCache_run address providedAbi c :
  addAbiToCache md5 etherscan key delay address providedAbi c =
  match providedAbi with
  | Some abi => (Ok tt, cacheAbi md5 address abi c, [])
  | None =>
      match getAbiFromCache c address with
      | Some _ => (Ok tt, c, [])
      | None =>
          match key with
          | None => (Threw ConfigurationError, c, [])
          | Some k =>
              match etherscan address k with
              | Some abi =>
                  (Ok tt, cacheAbi md5 address abi c,
                   [EvFetch address; EvDelay delay])
              | None => (Threw RemoteLookupError, c, [EvFetch address])
              end
          end
      end
  end.
Proof.
  destruct providedAbi as [abi|]; [done|].
  unfold addAbiToCache. rewrite run_bind. simpl.
  destruct (getAbiFromCache c address); [done|].
  rewrite run_bind. unfold fetchAbi. destruct key as [k|]; [|done].
  rewrite run_bind. simpl. by destruct (etherscan address k).
Qed.

Lemma cacheAbi_wf address abi c :
  cacheWellFormed c → cacheWellFormed (cacheAbi md5 address abi c).
Proof.
  intros Hwf address' abiHash. simpl.
  destruct (decide (address = address')) as [->|Hne].
  - rewrite lookup_insert_eq. intros [= <-]. rewrite lookup_insert_eq. eauto.
  - rewrite lookup_insert_ne by done. intros H.
    destruct (Hwf _ _ H) as [x Hx].
    destruct (decide (md5 abi = abiHash)) as [->|Hh].
    + rewrite lookup_insert_eq. eauto.
    + rewrite lookup_insert_ne by done. eauto.
Qed.

Lemma cacheAbi_keeps address abi c a :
  is_Some (getAbiFromCache c a) →
  is_Some (getAbiFromCache (cacheAbi md5 address abi c) a).
Proof.
  unfold getAbiFromCache. simpl. intros [x Hx].
  destruct (decide (address = a)) as [->|Hne].
  - rewrite lookup_insert_eq. simpl. rewrite lookup_insert_eq. eauto.
  - rewrite (lookup_insert_ne (abiHashByAddress c)) by done.
    destruct (decide (md5 abi = default "undefined" (abiHashByAddress c !! a)))
      as [Heq|Hh].
    + rewrite <- Heq, lookup_insert_eq. eauto.
    + rewrite lookup_insert_ne by done. eauto.
Qed.

Lemma addAbiToCache_wf address providedAbi c :
  cacheWellFormed c →
  cacheWellFormed
    (addAbiToCache md5 etherscan key delay address providedAbi c).1.2.
Proof.
  intros Hwf. rewrite addAbiToCache_run.
  destruct providedAbi; simpl; [by apply cacheAbi_wf|].
  destruct (getAbiFromCache c address); [done|].
  destruct key as [k|]; [|done].
  destruct (etherscan address k); simpl; [by apply cacheAbi_wf|done].
Qed.

Lemma addAbiToCache_keeps address providedAbi c a :
  is_Some (getAbiFromCache c a) →
  is_Some (getAbiFromCache
             (addAbiToCache md5 etherscan key delay address providedAbi c).1.2
             a).
Proof.
  intros Ha. rewrite addAbiToCache_run.
  destruct providedAbi; simpl; [by apply cacheAbi_keeps|].
  destruct (getAbiFromCache c address); [done|].
  destruct key as [k|]; [|done].
  destruct (etherscan address k); simpl; [by apply cacheAbi_keeps|done].
Qed.

Lemma warmUp_state (I : AbiCache → Prop) contractsBatch :
  (∀ address providedAbi c,
     I c → I (addAbiToCache md5 etherscan key delay address providedAbi c).1.2) →
  ∀ c, I c → I (warmUp md5 etherscan key delay contractsBatch c).1.2.
Proof.
  intros Hput. apply forM__state. intros g c Hc.
  destruct (g_contracts g); [done|]. unfold addAbis.
  destruct (g_addresses g) as [addresses|]; [|done].
  apply forM__state; [|done]. intros address c'. apply Hput.
Qed.
End CacheOperations.

(** X1.  The warm-up keeps the cache well formed, whether it ends or
    throws: every hash that an address points at is a stored one, so that an
    address with a hash always reads an ABI back. *)
Theorem warmUp_keeps_cache_well_formed
    (md5 : ABI → string) (etherscan : string → string → option ABI)
    (key : option string) (delay : Z) (contractsBatch : list ContractGroup)
    (c : AbiCache) :
  cacheWellFormed c →
  cacheWellFormed (warmUp md5 etherscan key delay contractsBatch c).1.2 ∧
  (∀ address abiHash,
     abiHashByAddress (warmUp md5 etherscan key delay contractsBatch c).1.2
       !! address = Some abiHash →
     is_Some (getAbiFromCache
                (warmUp md5 etherscan key delay contractsBatch c).1.2 address)).
Proof.
  intros Hwf.
  assert (Hwf' : cacheWellFormed
                   (warmUp md5 etherscan key delay contractsBatch c).1.2).
  { apply warmUp_state; [|done]. intros. by apply addAbiToCache_wf. }
  split; [done|]. intros address abiHash H. unfold getAbiFromCache.
  rewrite H. simpl. by apply (Hwf' address).
Qed.

Lemma warmUp_keeps_cache_well_formed_witness :
  cacheWellFormed
    (warmUp Ex.md5 ExCache.etherscan (Some "key") 300
       [ExCache.known] emptyCache).1.2 ∧
  (∀ address abiHash,
     abiHashByAddress
       (warmUp Ex.md5 ExCache.etherscan (Some "key") 300
          [ExCache.known] emptyCache).1.2 !! address = Some abiHash →
     is_Some (getAbiFromCache
                (warmUp Ex.md5 ExCache.etherscan (Some "key") 300
                   [ExCache.known] emptyCache).1.2 address)).
Proof.
  apply (warmUp_keeps_cache_well_formed Ex.md5 ExCache.etherscan (Some "key")
           300 [ExCache.known] emptyCache).
  intros address abiHash H. simpl in H. by rewrite lookup_empty in H.
Defined.

(** X2.  Nothing is evicted: an address that reads an ABI from the cache
    still reads one after any [addAbiToCache] and after any warm-up, also
    one that throws. *)
Theorem cached_stays_cached
    (md5 : ABI → string) (etherscan : string → string → option ABI)
    (key : option string) (delay : Z) (contractsBatch : list ContractGroup)
    (c : AbiCache) (a : string) :
  is_Some (getAbiFromCache c a) →
  (∀ address providedAbi,
     is_Some (getAbiFromCache
                (addAbiToCache md5 etherscan key delay address providedAbi
                   c).1.2 a)) ∧
  is_Some (getAbiFromCache
             (warmUp md5 etherscan key delay contractsBatch c).1.2 a).
Proof.
  intros Ha. split.
  - intros address providedAbi. by apply addAbiToCache_keeps.
  - apply (warmUp_state md5 etherscan key delay
             (λ c, is_Some (getAbiFromCache c a))); [|done].
    intros. by apply addAbiToCache_keeps.
Qed.

Lemma cached_stays_cached_witness :
  (∀ address providedAbi,
     is_Some (getAbiFromCache
                (addAbiToCache Ex.md5 ExCache.etherscan None 300 address
                   providedAbi (cacheAbi Ex.md5 "0xA" Ex.erc20 emptyCache)).1.2
                "0xA")) ∧
  is_Some (getAbiFromCache
             (warmUp Ex.md5 ExCache.etherscan None 300 [ExCache.unknown]
                (cacheAbi Ex.md5 "0xA" Ex.erc20 emptyCache)).1.2 "0xA").
Proof.
  apply (cached_stays_cached Ex.md5 ExCache.etherscan None 300
           [ExCache.unknown] (cacheAbi Ex.md5 "0xA" Ex.erc20 emptyCache) "0xA").
  vm_compute. eauto.
Defined.

(** X3.  What [addAbiToCache] guarantees when it returns: the address reads
    an ABI, which is the supplied one if one was supplied; and calling it
    again without an ABI does nothing at all: no fetch, no delay, the same
    cache. *)
Theorem addAbiToCache_ensures
    (md5 : ABI → string) (etherscan : string → string → option ABI)
    (key : option string) (delay : Z) (address : string)
    (providedAbi : option ABI) (c c' : AbiCache) (t : list event) :
  addAbiToCache md5 etherscan key delay address providedAbi c = (Ok tt, c', t) →
  is_Some (getAbiFromCache c' address) ∧
  (∀ abi, providedAbi = Some abi → getAbiFromCache c' address = Some abi) ∧
  addAbiToCache md5 etherscan key delay address None c' = (Ok tt, c', []).
Proof.
  rewrite addAbiToCache_run. intros H.
  assert (Hget : ∃ abi, getAbiFromCache c' address = Some abi ∧
                        (∀ abi', providedAbi = Some abi' → abi' = abi)).
  { destruct providedAbi as [abi|].
    - injection H as <- <-. exists abi.
      split; [apply getAbiFromCache_cacheAbi|]. by intros ? [= ->].
    - destruct (getAbiFromCache c address) as [abi|] eqn:Hc.
      + injection H as <- <-. by exists abi.
      + destruct key as [k|]; [|done].
        destruct (etherscan address k) as [abi|]; [|done].
        injection H as <- <-. exists abi.
        split; [apply getAbiFromCache_cacheAbi|done]. }
  destruct Hget as (abi & Hget & Hsame). split_and!.
  - by exists abi.
  - intros abi' ->. by rewrite (Hsame abi' eq_refl).
  - by rewrite addAbiToCache_run, Hget.
Qed.

Lemma addAbiToCache_ensures_witness :
  ∃ c' t,
    addAbiToCache Ex.md5 ExCache.etherscan (Some "key") 300 "0xA" None
      emptyCache = (Ok tt, c', t) ∧
    is_Some (getAbiFromCache c' "0xA") ∧
    (∀ abi, None = Some abi → getAbiFromCache c' "0xA" = Some abi) ∧
    addAbiToCache Ex.md5 ExCache.etherscan (Some "key") 300 "0xA" None c'
    = (Ok tt, c', []).
Proof.
  eexists _, _. split; [vm_compute; reflexivity|].
  eapply (addAbiToCache_ensures Ex.md5 ExCache.etherscan (Some "key") 300
            "0xA" None emptyCache).
  vm_compute. reflexivity.
Defined.

(** X4.  Reading after a put: once [abi] has been cached for [address], an
    address reads [abi] if it is that address or if its hash is the digest
    of [abi] (ABIs are shared by digest, whatever their content), and reads
    what it read before otherwise. *)
Theorem read_after_cacheAbi
    (md5 : ABI → string) (address : string) (abi : ABI) (c : AbiCache)
    (a : string) :
  getAbiFromCache (cacheAbi md5 address abi c) a
  = if decide (a = address ∨
               default "undefined" (abiHashByAddress c !! a) = md5 abi)
    then Some abi
    else getAbiFromCache c a.
Proof.
  unfold getAbiFromCache. simpl. case_decide as H.
  - destruct (decide (a = address)) as [->|Hne].
    + rewrite lookup_insert_eq. simpl. by rewrite lookup_insert_eq.
    + destruct H as [?|H]; [done|].
      rewrite (lookup_insert_ne (abiHashByAddress c)) by done.
      by rewrite H, lookup_insert_eq.
  - rewrite (lookup_insert_ne (abiHashByAddress c)) by naive_solver.
    rewrite lookup_insert_ne by naive_solver. done.
Qed.

(** ** Fetches and delays *)

Lemma fetchedAndDelayed_app delay l1 l2 :
  fetchedAndDelayed delay (l1 ++ l2)
  = fetchedAndDelayed delay l1 ++ fetchedAndDelayed delay l2.
Proof. unfold fetchedAndDelayed. by rewrite map_app, concat_app. Qed.

Section Fetches.
Variable md5 : ABI → string.
Variable etherscan : string → string → option ABI.
Variable key : option string.
Variable delay : Z.

Lemma fetchedOnce_nothing c c' r :
  r ≠ Threw RemoteLookupError → fetchedOnce delay c (r, c', []).
Proof.
  intros Hr. exists []. split_and!; [constructor| |by left].
  intros a Ha. by apply elem_of_nil in Ha.
Qed.

Lemma fetchedOnce_seq c c1 t1 r2 c2 t2 :
  fetchedOnce delay c (Ok tt, c1, t1) →
  fetchedOnce delay c1 (r2, c2, t2) →
  (∀ a, is_Some (getAbiFromCache c a) → is_Some (getAbiFromCache c1 a)) →
  (∀ a, is_Some (getAbiFromCache c1 a) → is_Some (getAbiFromCache c2 a)) →
  fetchedOnce delay c (r2, c2, t1 ++ t2).
Proof.
  intros (f1 & Hnd1 & Hf1 & Ht1) (f2 & Hnd2 & Hf2 & Ht2) Hk1 Hk2.
  simpl in *. destruct Ht1 as [[_ ->]|(a & ? & _)]; [|done].
  exists (f1 ++ f2). split_and!.
  - apply NoDup_app. split_and!; [done| |done].
    intros a Ha1 Ha2. destruct (Hf1 a Ha1) as [_ [x Hx]].
    destruct (Hf2 a Ha2) as [Hnone _]. congruence.
  - intros a Ha. apply elem_of_app in Ha as [Ha|Ha].
    + destruct (Hf1 a Ha) as [? ?]. split; [done|]. by apply Hk2.
    + destruct (Hf2 a Ha) as [Hnone ?]. split; [|done].
      destruct (getAbiFromCache c a) as [x|] eqn:Hc; [|done].
      destruct (Hk1 a (ex_intro _ x Hc)) as [y Hy]. congruence.
  - rewrite fetchedAndDelayed_app.
    destruct Ht2 as [[? ->]|(a & ? & ->)].
    + by left.
    + right. exists a. by rewrite app_assoc.
Qed.

Lemma addAbiToCache_fetchedOnce address providedAbi c :
  fetchedOnce delay c
    (addAbiToCache md5 etherscan key delay address providedAbi c).
Proof.
  rewrite addAbiToCache_run.
  destruct providedAbi as [abi|]; [by apply fetchedOnce_nothing|].
  destruct (getAbiFromCache c address) as [abi|] eqn:Hc;
    [by apply fetchedOnce_nothing|].
  destruct key as [k|]; [|by apply fetchedOnce_nothing].
  destruct (etherscan address k) as [abi|].
  - exists [address]. split_and!.
    + apply NoDup_singleton.
    + intros a Ha. apply list_elem_of_singleton in Ha as ->. simpl.
      split; [done|]. rewrite getAbiFromCache_cacheAbi. eauto.
    + by left.
  - exists []. split_and!; [constructor| |].
    + intros a Ha. by apply elem_of_nil in Ha.
    + right. by exists address.
Qed.

Lemma forM__fetchedOnce {A} (f : A → M AbiCache unit) l :
  (∀ x c, fetchedOnce delay c (f x c)) →
  (∀ x c a, is_Some (getAbiFromCache c a) →
            is_Some (getAbiFromCache (f x c).1.2 a)) →
  ∀ c, fetchedOnce delay c (forM_ l f c).
Proof.
  intros Hf Hk. induction l as [|x l IH]; intros c; simpl.
  - by apply fetchedOnce_nothing.
  - rewrite run_bind. pose proof (Hf x c) as Hx. pose proof (Hk x c) as Hkx.
    destruct (f x c) as [[[[]|e] c1] t1]; [|done].
    pose proof (IH c1) as Hrest.
    pose proof (forM__state (λ s, ∀ a, is_Some (getAbiFromCache c1 a) →
                                       is_Some (getAbiFromCache s a)) f l) as Hst.
    simpl in Hst.
    assert (Hk2 : ∀ a, is_Some (getAbiFromCache c1 a) →
                       is_Some (getAbiFromCache (forM_ l f c1).1.2 a)).
    { apply Hst; [|done]. intros y s Hs a Ha. apply Hk. by apply Hs. }
    destruct (forM_ l f c1) as [[r2 c2] t2]. simpl in *.
    by apply (fetchedOnce_seq c c1 t1 r2 c2 t2).
Qed.
End Fetches.

(** X5.  During a warm-up every ABI is fetched at most once, only for an
    address that had no cached ABI, and the delay is applied right after
    each fetch that succeeded and nowhere else; a warm-up that stops on a
    failed lookup leaves that last fetch without a delay.  Groups that
    supply an ABI or whose addresses are cached fetch nothing. *)
Theorem warmUp_fetches_once
    (md5 : ABI → string) (etherscan : string → string → option ABI)
    (key : option string) (delay : Z) (contractsBatch : list ContractGroup)
    (c : AbiCache) :
  fetchedOnce delay c (warmUp md5 etherscan key delay contractsBatch c).
Proof.
  apply forM__fetchedOnce.
  - intros g c0. destruct (g_contracts g); [by apply fetchedOnce_nothing|].
    unfold addAbis. destruct (g_addresses g) as [addresses|];
      [|by apply fetchedOnce_nothing].
    apply forM__fetchedOnce.
    + intros address c1. apply addAbiToCache_fetchedOnce.
    + intros address c1 a. apply addAbiToCache_keeps.
  - intros g c0 a Ha. destruct (g_contracts g); [done|]. unfold addAbis.
    destruct (g_addresses g) as [addresses|]; [|done].
    apply (forM__state (λ s, is_Some (getAbiFromCache s a))); [|done].
    intros address s. apply addAbiToCache_keeps.
Qed.

(** A group that lists an address twice fetches its ABI once; a lookup that
    fails ends the warm-up on a fetch without a delay. *)
Example fetch_once_then_fail :
  (warmUp Ex.md5 ExCache.etherscan (Some "key") 300
     [ExCache.known; ExCache.unknown] emptyCache).1.1
  = Threw RemoteLookupError ∧
  (warmUp Ex.md5 ExCache.etherscan (Some "key") 300
     [ExCache.known; ExCache.unknown] emptyCache).2
  = [EvFetch "0xA"; EvDelay 300; EvFetch "0xB"].
Proof. split; vm_compute; reflexivity. Qed.

(** ** Runs of the engine of [src/batchCall.js] *)



(** Every method of a batch whose groups all resolve has resolved. *)
Lemma settled_methods_resolved contracts contractsPromiseResult m :
  promiseAll (map group_settled contracts) = Resolved contractsPromiseResult →
  m ∈ concat (map group_methods contracts) →
  ∃ r, me_settled m = Resolved r.
Proof.
  intros Hall Hm.
  apply elem_of_concat in Hm as (ms & Hm & Hms).
  apply elem_of_map in Hms as (g & -> & Hg).
  destruct (promiseAll_Resolved_all _ _ (group_settled g) Hall) as [y Hy].
  { apply elem_of_map. eauto. }
  destruct g as [addresses|]; [|done]. simpl in Hy, Hm.
  unfold group_methods in Hm. simpl in Hm.
  apply elem_of_concat in Hm as (ms' & Hm & Hms').
  apply elem_of_map in Hms' as (a & -> & Ha).
  destruct (promiseAll_Resolved_all _ _ (ae_settled a) Hy) as [z Hz].
  { apply elem_of_map. eauto. }
  unfold ae_settled in Hz.
  destruct (promiseAll (map me_settled (ae_methods a))) as [state|] eqn:Hst;
    [|done].
  apply (promiseAll_Resolved_all _ _ (me_settled m) Hst).
  apply elem_of_map. eauto.
Qed.

Section LegacyRun.
Variable md5 : ABI → string.
Variable etherscan : string → string → option ABI.
Variable toString : jsval → string.

Lemma legacy_execute_run contractsBatch blockNumber this :
  Legacy.execute md5 etherscan toString contractsBatch blockNumber this =
  let '(warm, c', tw) :=
    warmUp md5 etherscan (Legacy.etherscanApiKey this)
      (Legacy.etherscanDelayTime this) contractsBatch (Legacy.cache this) in
  let this' := Legacy.setCache c' this in
  match warm with
  | Threw e => (Threw e, this', tw)
  | Ok _ =>
      let contracts :=
        map (Legacy.addContractToBatch this' (boundBlock blockNumber))
          contractsBatch in
      let methods := concat (map group_methods contracts) in
      let t := tw ++ concat (map me_sync methods) ++ [EvBatchExecute] in
      match promiseAll (map group_settled contracts) with
      | Rejected _ err => (Ok (ErrorValue err), this', t)
      | Resolved contractsPromiseResult =>
          match reduceContractsState contractsPromiseResult with
          | Threw err => (Ok (ErrorValue err), this', t)
          | Ok contractsState =>
              (Ok (if Legacy.groupByNamespace this
                   then Grouped (groupByNamespaceTree toString contractsState)
                   else Flat contractsState),
               if Legacy.clearMemoryAfterExecution this
               then Legacy.setCache emptyCache this else this',
               t ++ (if Legacy.logging this
                     then [EvLog (LogSummary
                                    (sum_list (map me_counted methods)))]
                     else []))
          end
      end
  end.
Proof.
  unfold Legacy.execute. rewrite run_bind. simpl.
  rewrite run_bind. unfold Legacy.onCache at 1.
  destruct (warmUp _ _ _ _ _ _) as [[[[]|e] c'] tw]; [|done].
  rewrite run_bind. simpl. rewrite !run_bind. simpl.
  fold (boundBlock blockNumber).
  destruct (promiseAll _) as [cpr|sync err]; simpl.
  - destruct (reduceContractsState cpr) as [st|err]; simpl.
    + rewrite !run_bind.
      destruct (Legacy.clearMemoryAfterExecution this),
               (Legacy.logging this); simpl;
        by rewrite ?app_nil_r, <- ?app_assoc.
    + by rewrite ?app_nil_r, <- ?app_assoc.
  - by rewrite ?app_nil_r, <- ?app_assoc.
Qed.

Lemma legacy_methods_origin this block contractsBatch m :
  m ∈ concat (map group_methods
                (map (Legacy.addContractToBatch this block) contractsBatch)) →
  ∃ abi address method,
    legacyRequested (Legacy.cache this) contractsBatch address method ∧
    m = Legacy.addMethodToBatch this block abi address method.
Proof.
  intros Hm.
  apply elem_of_concat in Hm as (ms & Hm & Hms).
  apply elem_of_map in Hms as (group & -> & Hgroup).
  apply elem_of_map in Hgroup as (g & -> & Hg).
  unfold group_methods, Legacy.addContractToBatch in Hm.
  destruct (objectToIterateOver g) as [items|] eqn:Hitems;
    [|by apply elem_of_nil in Hm].
  simpl in Hm. apply elem_of_concat in Hm as (ms & Hm & Hms).
  apply elem_of_map in Hms as (a & -> & Ha).
  apply elem_of_map in Ha as (item & -> & Hitem).
  unfold Legacy.addAddressToBatch in Hm.
  destruct item as [address|contract]; simpl in Hm;
    apply elem_of_map in Hm as (method & -> & Hmethod); do 3 eexists;
    (split; [|reflexivity]); exists g, items; eexists; split_and!; eauto.
Qed.

Lemma legacy_method_sync this block abi address method :
  let m := Legacy.addMethodToBatch this block abi address method in
  (me_sync m = [] ∧ ∀ r, me_settled m = Resolved r → me_counted m = 0%nat) ∨
  (me_counted m = 1%nat ∧
   methodExists (Legacy.web3 this) abi (m_name method) = true ∧
   me_sync m = [EvBatchAdd {| c_address := address;
                              c_method := m_name method;
                              c_args := default [] (m_args method);
                              c_block := block |}]).
Proof.
  unfold Legacy.addMethodToBatch.
  destruct (methodExists _ _ _); simpl; [|by left].
  destruct (requestThrows _ _); simpl; [by left|by right].
Qed.
End LegacyRun.


(** X7.  In an [execute] of [src/batchCall.js] that returns, the requests
    are added to the batch after the warm-up, the batch is submitted once,
    after the last of them, and nothing is fetched or added afterwards; the
    summary is logged only with the tree, when logging is on, and the
    number of methods it reports is then the number of requests of the
    batch.  Every request is for a method that exists on its target, with
    the arguments as they were given and at the block that was asked for
    (none when the block number is undefined or 0). *)
Theorem legacy_single_flush
    (md5 : ABI → string) (etherscan : string → string → option ABI)
    (toString : jsval → string) (contractsBatch : list ContractGroup)
    (blockNumber : option Z) (this : Legacy.Engine) (resp : response)
    (this' : Legacy.Engine) (t : list event) :
  Legacy.execute md5 etherscan toString contractsBatch blockNumber this
  = (Ok resp, this', t) →
  ∃ tw adds,
    (warmUp md5 etherscan (Legacy.etherscanApiKey this)
       (Legacy.etherscanDelayTime this) contractsBatch (Legacy.cache this)).2
    = tw ∧
    t = tw ++ map EvBatchAdd adds ++
        EvBatchExecute ::
        (if Legacy.logging this && succeeded (Ok resp)
         then [EvLog (LogSummary (length adds))] else []) ∧
    ∀ c, c ∈ adds →
         c_block c = boundBlock blockNumber ∧
         ∃ method,
           legacyRequested
             (warmUp md5 etherscan (Legacy.etherscanApiKey this)
                (Legacy.etherscanDelayTime this) contractsBatch
                (Legacy.cache this)).1.2
             contractsBatch (c_address c) method ∧
           c_method c = m_name method ∧
           c_args c = default [] (m_args method).
Proof.
  rewrite legacy_execute_run.
  destruct (warmUp _ _ _ _ _ _) as [[[[]|e0] c'] tw]; [|done]. simpl.
  set (this1 := Legacy.setCache c' this).
  set (contracts := map _ contractsBatch).
  set (methods := concat (map group_methods contracts)).
  intros Hrun. exists tw.
  assert (Horigin : ∀ m, m ∈ methods →
            ∃ abi address method,
              legacyRequested c' contractsBatch address method ∧
              m = Legacy.addMethodToBatch this1 (boundBlock blockNumber)
                    abi address method).
  { intros m Hm. by apply (legacy_methods_origin this1) in Hm. }
  assert (Hadds : ∃ adds,
            concat (map me_sync methods) = map EvBatchAdd adds ∧
            ((∀ m, m ∈ methods → ∃ r, me_settled m = Resolved r) →
             sum_list (map me_counted methods) = length adds) ∧
            ∀ c, c ∈ adds →
                 c_block c = boundBlock blockNumber ∧
                 ∃ method,
                   legacyRequested c' contractsBatch (c_address c) method ∧
                   c_method c = m_name method ∧
                   c_args c = default [] (m_args method)).
  { clear Hrun. induction methods as [|m methods IH].
    - exists []. split_and!; [done|done|]. intros c Hc.
      by apply elem_of_nil in Hc.
    - destruct IH as (adds & Hsync & Hcount & Horig).
      { intros m' Hm'. apply Horigin. by right. }
      destruct (Horigin m) as (abi & address & method & Hreq & ->);
        [by left|].
      destruct (legacy_method_sync this1 (boundBlock blockNumber) abi address
                  method) as [[Hs Hc]|(Hc & _ & Hs)].
      + exists adds. simpl. rewrite Hs. split_and!; [done| |done].
        intros Hres. edestruct Hres as [r Hr]; [by left|].
        rewrite (Hc r Hr). apply Hcount. intros m' Hm'. apply Hres.
        by right.
      + eexists (_ :: adds). simpl. rewrite Hs. simpl. split_and!.
        * by rewrite Hsync.
        * intros Hres. rewrite Hc. f_equal. apply Hcount.
          intros m' Hm'. apply Hres. by right.
        * intros c Hc'. apply elem_of_cons in Hc' as [->|Hc']; [|by apply Horig].
          simpl. split; [done|]. by exists method. }
  destruct Hadds as (adds & Hsync & Hcount & Horig).
  exists adds. split; [done|]. split; [|done].
  destruct (promiseAll (map group_settled contracts)) as [cpr|sync err] eqn:Hall.
  - destruct (reduceContractsState cpr) as [st|err].
    + injection Hrun as <- _ <-. rewrite Hsync, Hcount.
      * rewrite <- !app_assoc. simpl.
        by destruct (Legacy.logging this), (Legacy.groupByNamespace this).
      * intros m Hm. by apply (settled_methods_resolved contracts cpr).
    + injection Hrun as <- _ <-. rewrite Hsync. simpl.
      by rewrite andb_false_r.
  - injection Hrun as <- _ <-. rewrite Hsync. simpl.
    by rewrite andb_false_r.
Qed.

Lemma legacy_single_flush_witness :
  ∃ resp this' t,
    Legacy.execute Ex.md5 Ex.etherscan Ex.toString ExLegacy.batch (Some 0)
      (ExLegacy.engine (Ex.web3 Ex.blockOf [])) = (Ok resp, this', t) ∧
    ∃ tw adds,
      (warmUp Ex.md5 Ex.etherscan None 300 ExLegacy.batch emptyCache).2 = tw ∧
      t = tw ++ map EvBatchAdd adds ++
          EvBatchExecute ::
          (if true && succeeded (Ok resp)
           then [EvLog (LogSummary (length adds))] else []) ∧
      ∀ c, c ∈ adds →
           c_block c = boundBlock (Some 0) ∧
           ∃ method,
             legacyRequested
               (warmUp Ex.md5 Ex.etherscan None 300 ExLegacy.batch
                  emptyCache).1.2
               ExLegacy.batch (c_address c) method ∧
             c_method c = m_name method ∧
             c_args c = default [] (m_args method).
Proof.
  eexists _, _, _. split; [vm_compute; reflexivity|].
  eapply (legacy_single_flush Ex.md5 Ex.etherscan Ex.toString ExLegacy.batch
            (Some 0) (ExLegacy.engine (Ex.web3 Ex.blockOf []))).
  vm_compute. reflexivity.
Defined.

(** Block 0 cannot be asked for: the four requests of the batch (three
    discovered fields and [balanceOf]) are left unbound, and the summary
    counts them. *)
Example block_zero_is_the_head :
  (Legacy.execute Ex.md5 Ex.etherscan Ex.toString ExLegacy.batch (Some 0)
     (ExLegacy.engine (Ex.web3 Ex.blockOf []))).2
  = map (λ name, EvBatchAdd {| c_address := "0xA"; c_method := name.1;
                               c_args := name.2; c_block := None |})
      [("balanceOf", [JStr "0xholder"]); ("totalSupply", []);
       ("decimals", []); ("paused", [])]
    ++ [EvBatchExecute; EvLog (LogSummary 4)].
Proof. vm_compute. reflexivity. Qed.

(** ** Invariants of the fold that builds the tree *)


Lemma hasAddress_nodeAddress address n :
  hasAddress address n = true ↔ nodeAddress n = Some address.
Proof.
  unfold hasAddress, nodeAddress.
  destruct (n !! "address") as [[s| | | |]|]; try (split; done).
  rewrite String.eqb_eq. split; [by intros ->|by intros [= ->]].
Qed.

Lemma find_sameInput_None i l :
  List.find (sameInput (Some i)) l = None → i ∉ omap ma_input l.
Proof.
  induction l as [|ma l IH]; simpl; [intros _; apply not_elem_of_nil|].
  unfold sameInput at 1. destruct (ma_input ma) as [j|] eqn:Hj; [|done].
  destruct (String.eqb i j) eqn:Heq; [done|]. intros Hfind.
  apply not_elem_of_cons. split; [|by apply IH].
  intros ->. by rewrite String.eqb_refl in Heq.
Qed.

(** What [mergeMethodArg] leaves under the method's name, and that it
    touches nothing else. *)
Lemma mergeMethodArg_lookup n r n' :
  mergeMethodArg n r = Ok n' →
  (∀ k, k ≠ r_method r → n' !! k = n !! k) ∧
  ∃ old,
    (n !! r_method r = Some (FBuckets old) ∨
     (old = [] ∧ (n !! r_method r = None ∨
                  n !! r_method r = Some FUndefined))) ∧
    n' !! r_method r
    = Some (FBuckets
              (if truthy_str (r_input r)
               then match List.find (sameInput (r_input r)) old with
                    | Some _ => old
                    | None => old ++ [mkMethodArg r]
                    end
               else [mkMethodArg r])).
Proof.
  unfold mergeMethodArg.
  destruct (n !! r_method r) as [[s|l|v|l|]|] eqn:Hlook; intros H;
    try discriminate H; injection H as <-; cbv zeta beta.
  - split.
    + intros k Hk. destruct (truthy_str _), (List.find _ _);
        rewrite ?lookup_insert_ne by done; done.
    + exists l. split; [by left|].
      destruct (truthy_str _); [destruct (List.find _ _)|];
        rewrite ?lookup_insert_eq; done.
  - split.
    + intros k Hk. simpl. destruct (truthy_str _);
        rewrite ?lookup_insert_ne by done; done.
    + exists []. split; [right; split; [done|by right]|]. simpl.
      destruct (truthy_str _); rewrite ?lookup_insert_eq; done.
  - split.
    + intros k Hk. simpl. destruct (truthy_str _);
        rewrite ?lookup_insert_ne by done; done.
    + exists []. split; [right; split; [done|by left]|]. simpl.
      destruct (truthy_str _); rewrite ?lookup_insert_eq; done.
Qed.

(** A node keeps its address when a result is merged into it. *)
Lemma mergeMethodArg_address address n r n' :
  nodeAddress n = Some address → mergeMethodArg n r = Ok n' →
  r_method r ≠ "address" ∧ nodeAddress n' = Some address.
Proof.
  intros Ha Hm.
  assert (Hne : r_method r ≠ "address").
  { intros Heq. unfold mergeMethodArg in Hm. rewrite Heq in Hm.
    unfold nodeAddress in Ha.
    by destruct (n !! "address") as [[s| | | |]|]. }
  split; [done|]. apply mergeMethodArg_lookup in Hm as [Hother _].
  unfold nodeAddress. by rewrite Hother.
Qed.


Lemma reduceContractsState_invariant (I : list Node → Prop)
    contractsPromiseResult tree :
  I [] →
  (∀ address namespace acc callResult acc',
     I acc → addMethodResults address namespace acc callResult = Ok acc' →
     I acc') →
  reduceContractsState contractsPromiseResult = Ok tree → I tree.
Proof.
  intros Hnil Hstep. unfold reduceContractsState.
  apply (result_foldM_inv I); [|done].
  intros acc contractConfig acc' _ Hacc. unfold formatContractsState.
  apply (result_foldM_inv I); [|done].
  intros acc1 addressCall acc1' _ Hacc1. unfold addAddressCalls.
  apply (result_foldM_inv I); [|done].
  intros acc2 callResult acc2' _ Hacc2. by apply Hstep.
Qed.



Lemma mergeMethodArg_distinct n r n' :
  distinctEntries n → mergeMethodArg n r = Ok n' → distinctEntries n'.
Proof.
  intros Hn Hm. apply mergeMethodArg_lookup in Hm as (Hother & old & Hold & Hnew).
  assert (Hdold : distinctBuckets old).
  { destruct Hold as [Hold|[-> _]]; [by apply (Hn _ _ Hold)|].
    split; [constructor|simpl; lia]. }
  intros k l Hk. destruct (decide (k = r_method r)) as [->|Hne];
    [|rewrite Hother in Hk by done; by apply (Hn _ _ Hk)].
  rewrite Hnew in Hk. injection Hk as <-.
  assert (Hin : ma_input (mkMethodArg r)
                = if truthy_str (r_input r) then r_input r else None) by done.
  destruct (truthy_str (r_input r)) eqn:Htruthy.
  - destruct (r_input r) as [i|] eqn:Hi; [|done].
    destruct (List.find (sameInput (Some i)) old) eqn:Hfind; [done|].
    destruct Hdold as [Hnd Hcount]. split.
    + rewrite omap_app. cbn [omap list_omap]. rewrite Hin.
      apply NoDup_app. split_and!; [done| |apply NoDup_singleton].
      intros j Hj Hj'. apply list_elem_of_singleton in Hj' as ->.
      by apply find_sameInput_None in Hfind.
    + rewrite filter_app, length_app, filter_cons, filter_nil.
      case_decide as Hd; [by rewrite Hin in Hd|simpl; lia].
  - split.
    + cbn [omap list_omap]. rewrite Hin. constructor.
    + rewrite filter_cons. case_decide; simpl; lia.
Qed.

(** X9.  In the tree that [formatContractsState] builds, the buckets of a
    method entry are told apart by their encoded input: no two buckets of an
    entry carry the same input, and at most one carries none, whatever was
    read how often. *)
Theorem tree_buckets_distinct
    (contractsPromiseResult : list (list AddressCall)) (tree : list Node)
    (n : Node) (k : string) (l : list MethodArg) :
  reduceContractsState contractsPromiseResult = Ok tree →
  n ∈ tree → n !! k = Some (FBuckets l) →
  distinctBuckets l.
Proof.
  intros Hred Hn Hk.
  assert (Hall : Forall distinctEntries tree).
  { revert Hred.
    apply (reduceContractsState_invariant (Forall distinctEntries));
      [constructor|].
    intros address namespace acc callResult acc' Hacc.
    unfold addMethodResults. destruct callResult as [r|]; [|by intros [= <-]].
    destruct (list_find _ acc) as [[i addressResult]|] eqn:Hfind.
    - apply list_find_Some in Hfind as (Hi & _ & _).
      destruct (mergeMethodArg addressResult r) as [n0|] eqn:Hm; simpl; [|done].
      intros [= <-]. apply Forall_insert; [done|].
      apply (mergeMethodArg_distinct addressResult r); [|done].
      by apply (Forall_lookup_1 _ _ _ _ Hacc Hi).
    - intros [= <-]. apply Forall_app. split; [done|].
      constructor; [|constructor]. intros k' l'. unfold newAddressResult.
      destruct (decide (k' = r_method r)) as [->|Hne].
      + rewrite lookup_insert_eq. intros [= <-]. split.
        * cbn [omap list_omap].
          destruct (ma_input (mkMethodArg r));
            [apply NoDup_singleton|constructor].
        * rewrite filter_cons. case_decide; simpl; lia.
      + rewrite lookup_insert_ne by done.
        destruct (decide (k' = "namespace")) as [->|Hne'];
          [by rewrite lookup_insert_eq|].
        rewrite lookup_insert_ne by done.
        destruct (decide (k' = "address")) as [->|Hne''];
          [by rewrite lookup_insert_eq|].
        by rewrite lookup_insert_ne by done. }
  rewrite Forall_forall in Hall. by apply (Hall n Hn k l).
Qed.

Lemma tree_buckets_distinct_witness :
  ∃ tree n l,
    reduceContractsState ExFold.settled = Ok tree ∧ n ∈ tree ∧
    n !! "balanceOf" = Some (FBuckets l) ∧ length l = 1%nat ∧
    distinctBuckets l.
Proof.
  eexists _, _, _. split; [vm_compute; reflexivity|].
  split; [apply list_elem_of_here|].
  split; [vm_compute; reflexivity|]. split; [reflexivity|].
  eapply (tree_buckets_distinct ExFold.settled _ _ "balanceOf").
  - vm_compute. reflexivity.
  - apply list_elem_of_here.
  - vm_compute. reflexivity.
Defined.

Lemma find_sameInput_self r old :
  truthy_str (r_input r) = true →
  is_Some (List.find (sameInput (r_input r)) (old ++ [mkMethodArg r])).
Proof.
  intros Htruthy. induction old as [|ma old IH]; simpl.
  - unfold sameInput, mkMethodArg. simpl. rewrite Htruthy.
    destruct (r_input r) as [i|]; [|done]. rewrite String.eqb_refl. eauto.
  - destruct (sameInput (r_input r) ma); eauto.
Qed.

(** A node whose entry already accounts for a result is left as it is. *)
Lemma mergeMethodArg_fixed n r l :
  n !! r_method r = Some (FBuckets l) →
  (if truthy_str (r_input r)
   then is_Some (List.find (sameInput (r_input r)) l)
   else l = [mkMethodArg r]) →
  mergeMethodArg n r = Ok n.
Proof.
  intros Hlook Hl. unfold mergeMethodArg. rewrite Hlook. cbv zeta beta.
  f_equal. destruct (truthy_str (r_input r)).
  - by destruct Hl as [ma ->].
  - subst l. destruct (List.find _ _).
    + by apply insert_id.
    + rewrite insert_insert_eq. by apply insert_id.
Qed.

Lemma mergeMethodArg_again n r n' :
  mergeMethodArg n r = Ok n' → mergeMethodArg n' r = Ok n'.
Proof.
  intros Hm. apply mergeMethodArg_lookup in Hm as (_ & old & _ & Hnew).
  apply (mergeMethodArg_fixed n' r _ Hnew).
  destruct (truthy_str (r_input r)) eqn:Htruthy; [|done].
  destruct (List.find (sameInput (r_input r)) old) eqn:Hfind.
  - rewrite Hfind. eauto.
  - by apply find_sameInput_self.
Qed.

(** X10.  Folding a result that the tree already accounts for changes
    nothing: after a result of a method (other than one named [address])
    has been folded for an address, folding it again leaves the tree as it
    is, so a read that a batch repeats shows once. *)
Theorem addMethodResults_idempotent
    (address namespace : string) (acc : list Node) (r : CallResult)
    (acc1 : list Node) :
  r_method r ≠ "address" →
  addMethodResults address namespace acc (Some r) = Ok acc1 →
  addMethodResults address namespace acc1 (Some r) = Ok acc1.
Proof.
  intros Hne. unfold addMethodResults.
  destruct (list_find _ acc) as [[i addressResult]|] eqn:Hfind.
  - apply list_find_Some in Hfind as (Hi & Hfound & Hfirst).
    destruct (mergeMethodArg addressResult r) as [n|] eqn:Hm; simpl; [|done].
    intros [= <-].
    assert (Hagain : list_find (λ n0, hasAddress address n0 = true)
                       (<[i:=n]> acc) = Some (i, n)).
    { apply list_find_Some. split_and!.
      - apply list_lookup_insert_eq. by apply lookup_lt_Some in Hi.
      - apply hasAddress_nodeAddress in Hfound.
        apply hasAddress_nodeAddress.
        by destruct (mergeMethodArg_address _ _ _ _ Hfound Hm).
      - intros j y Hj Hlt. rewrite list_lookup_insert_ne in Hj by lia.
        by apply (Hfirst j). }
    rewrite Hagain, (mergeMethodArg_again _ _ _ Hm). simpl.
    by rewrite list_insert_insert_eq.
  - intros [= <-]. apply list_find_None in Hfind.
    set (new := newAddressResult address namespace (r_method r)
                  (mkMethodArg r)).
    assert (Hagain : list_find (λ n0, hasAddress address n0 = true)
                       (acc ++ [new]) = Some (length acc, new)).
    { apply list_find_Some. split_and!.
      - by apply list_lookup_middle.
      - unfold hasAddress, new, newAddressResult.
        rewrite lookup_insert_ne by done. rewrite lookup_insert_ne by done.
        rewrite lookup_insert_eq. apply String.eqb_refl.
      - intros j y Hj Hlt. rewrite lookup_app_l in Hj by done.
        rewrite Forall_forall in Hfind. apply Hfind.
        by apply list_elem_of_lookup_2 in Hj. }
    rewrite Hagain.
    rewrite (mergeMethodArg_fixed new r [mkMethodArg r]).
    + simpl. f_equal. apply list_insert_id. by apply list_lookup_middle.
    + unfold new, newAddressResult. by rewrite lookup_insert_eq.
    + destruct (truthy_str (r_input r)) eqn:Htruthy; [|done].
      by apply (find_sameInput_self r []).
Qed.

Lemma addMethodResults_idempotent_witness :
  ∃ r acc1,
    ExFold.read "balanceOf" (Some "0x70a0") 1 = Some r ∧
    addMethodResults "0xA" "default" [] (Some r) = Ok acc1 ∧
    length acc1 = 1%nat ∧
    addMethodResults "0xA" "default" acc1 (Some r) = Ok acc1.
Proof.
  eexists _, _. split; [reflexivity|]. split; [vm_compute; reflexivity|].
  split; [reflexivity|].
  eapply (addMethodResults_idempotent "0xA" "default" []).
  - vm_compute. discriminate.
  - vm_compute. reflexivity.
Defined.

(** ** Grouping any tree *)

Lemma concat_snd_perm {K A} (l1 l2 : list (K * list A)) :
  l1 ≡ₚ l2 → concat (map snd l1) ≡ₚ concat (map snd l2).
Proof.
  induction 1 as [|x l1 l2 _ IH|x y l|l1 l2 l3 _ IH1 _ IH2]; simpl.
  - done.
  - by rewrite IH.
  - rewrite !app_assoc. by rewrite (Permutation_app_comm y.2 x.2).
  - by rewrite IH1.
Qed.

Lemma bucket_nodes_insert {A} (m : gmap string (list A)) k l :
  concat (map snd (map_to_list (<[k := default [] (m !! k) ++ l]> m)))
  ≡ₚ concat (map snd (map_to_list m)) ++ l.
Proof.
  destruct (m !! k) as [old|] eqn:Hk; simpl.
  - rewrite <- (insert_delete_eq m).
    rewrite (concat_snd_perm _ _
               (map_to_list_insert (delete k m) k (old ++ l)
                  (lookup_delete_eq m k))).
    rewrite <- (concat_snd_perm _ _ (map_to_list_delete m k old Hk)).
    simpl. rewrite <- !app_assoc. apply Permutation_app_head.
    apply Permutation_app_comm.
  - rewrite (concat_snd_perm _ _ (map_to_list_insert m k l Hk)). simpl.
    apply Permutation_app_comm.
Qed.

(** X11.  Grouping by namespace loses and repeats no node, whatever the
    nodes hold under [namespace]: the nodes of the grouped response are the
    nodes of the tree without their [namespace] property, up to their
    order, and no bucket is empty. *)
Theorem grouping_keeps_every_node
    (toString : jsval → string) (tree : list Node) :
  responseNodes (Grouped (groupByNamespaceTree toString tree))
  ≡ₚ map omitNamespace tree ∧
  ∀ k l, groupByNamespaceTree toString tree !! k = Some l → l ≠ [].
Proof.
  split.
  - simpl. unfold groupByNamespaceTree, removeNamespaceKeys, groupBy.
    rewrite map_to_list_fmap.
    assert (Hfold : ∀ acc : gmap string (list Node),
      concat (map snd (map_to_list
        (foldl (λ acc contract,
                  <[namespaceKey toString contract :=
                      default [] (acc !! namespaceKey toString contract)
                      ++ [contract]]> acc) acc tree)))
      ≡ₚ concat (map snd (map_to_list acc)) ++ tree).
    { induction tree as [|n tree IH]; intros acc; simpl.
      - by rewrite app_nil_r.
      - rewrite IH, bucket_nodes_insert. by rewrite <- app_assoc. }
    specialize (Hfold ∅). rewrite map_to_list_empty in Hfold. simpl in Hfold.
    etransitivity; [|apply Permutation_map, Hfold].
    generalize (map_to_list
      (foldl (λ (acc : gmap string (list Node)) contract,
                <[namespaceKey toString contract :=
                    default [] (acc !! namespaceKey toString contract)
                    ++ [contract]]> acc) ∅ tree)).
    intros l. induction l as [|[k ns] l IH]; simpl; [done|].
    by rewrite map_app, IH.
  - intros k l. rewrite groupByNamespaceTree_lookup.
    destruct (filter _ tree) as [|n ns]; [done|]. by intros [= <-].
Qed.

(** X12.  What an [execute] of [src/batchCall.js] does to the engine: when
    it returns the tree and [clearMemoryAfterExecution] is set, the cache
    is empty afterwards; in every other case (the flag is off, an error
    value is returned, or the warm-up threw) the cache is what the warm-up
    left.  No other field of the engine changes. *)
Theorem legacy_cache_after_execute
    (md5 : ABI → string) (etherscan : string → string → option ABI)
    (toString : jsval → string) (contractsBatch : list ContractGroup)
    (blockNumber : option Z) (this : Legacy.Engine) :
  let run :=
    Legacy.execute md5 etherscan toString contractsBatch blockNumber this in
  let warm :=
    warmUp md5 etherscan (Legacy.etherscanApiKey this)
      (Legacy.etherscanDelayTime this) contractsBatch (Legacy.cache this) in
  run.1.2
  = Legacy.setCache
      (if Legacy.clearMemoryAfterExecution this && succeeded run.1.1
       then emptyCache else warm.1.2) this.
Proof.
  intros run warm. subst run warm. rewrite legacy_execute_run.
  destruct (warmUp _ _ _ _ _ _) as [[[[]|e0] c'] tw]; simpl.
  - destruct (promiseAll _) as [cpr|]; simpl;
      [destruct (reduceContractsState cpr); simpl|];
      rewrite ?andb_false_r; try done.
    by destruct (Legacy.clearMemoryAfterExecution this),
                (Legacy.groupByNamespace this).
  - by rewrite andb_false_r.
Qed.

(** With the flag set, the cache is cleared when the tree comes back, and
    kept when a call fails and the error value comes back instead. *)
Example cache_kept_on_error :
  Legacy.cache
    (Legacy.execute Ex.md5 Ex.etherscan Ex.toString ExLegacy.batch None
       (ExLegacy.engine (Ex.web3 Ex.blockOf []))).1.2 = emptyCache ∧
  (Legacy.execute Ex.md5 Ex.etherscan Ex.toString ExLegacy.batch None
     (ExLegacy.engine (Ex.web3 Ex.blockOf ["decimals"]))).1.1
  = Ok (ErrorValue (TransportError "execution reverted")) ∧
  getAbiFromCache
    (Legacy.cache
       (Legacy.execute Ex.md5 Ex.etherscan Ex.toString ExLegacy.batch None
          (ExLegacy.engine (Ex.web3 Ex.blockOf ["decimals"]))).1.2) "0xA"
  = Some Ex.erc20.
Proof. split_and!; vm_compute; reflexivity. Qed.




(** ** Post-processing of the block-sampling engine *)

Lemma flattenVal_flattened ma ma' :
  Sampling.flattenVal ma = Ok ma' → flattenedBucket ma ma'.
Proof.
  unfold Sampling.flattenVal, flattenedBucket.
  destruct (ma_values ma) as [[|[sample|] [|??]]|] eqn:Hv;
    intros [= <-]; simpl; split_and!; try done; try (by left).
  right. by exists sample.
Qed.

(** X14.  Flattening keeps a method entry a list of buckets unless
    [simplifyResponse] is on and the entry has exactly one bucket: the
    flattened entry has one bucket per bucket, in the same order and with
    the same input and arguments, and a bucket is either untouched or had
    its single block sample replaced by that sample's value. *)
Theorem flattenArg_keeps_buckets
    (simplifyResponse : bool) (l : list MethodArg) (f' : field) :
  simplifyResponse = false ∨ length l ≠ 1%nat →
  Sampling.flattenArg simplifyResponse (FBuckets l) = Ok f' →
  ∃ l', f' = FBuckets l' ∧ Forall2 flattenedBucket l l'.
Proof.
  intros Hkeep. simpl.
  destruct (result_mapM Sampling.flattenVal l) as [l'|] eqn:Hl'; simpl; [|done].
  apply result_mapM_Forall2 in Hl'.
  assert (Hflat : Forall2 flattenedBucket l l').
  { eapply Forall2_impl; [exact Hl'|]. apply flattenVal_flattened. }
  pose proof (Forall2_length _ _ _ Hl') as Hlen.
  destruct l' as [|bucket [|bucket' l']].
  - intros [= <-]. eauto.
  - destruct simplifyResponse.
    + destruct Hkeep as [?|Hne]; [done|]. simpl in Hlen. lia.
    + intros [= <-]. eauto.
  - intros [= <-]. eauto.
Qed.

Lemma flattenArg_keeps_buckets_witness :
  ∃ l', Sampling.flattenArg true (FBuckets ExSampling.buckets)
        = Ok (FBuckets l') ∧
        map ma_value l' = [Some (JNum 7); None] ∧
        Forall2 flattenedBucket ExSampling.buckets l'.
Proof.
  destruct (flattenArg_keeps_buckets true ExSampling.buckets
              (FBuckets
                 [{| ma_value := Some (JNum 7); ma_values := None;
                     ma_input := Some "0x70a0";
                     ma_args := Some [JStr "0xholder"] |};
                  {| ma_value := None; ma_values := Some [];
                     ma_input := Some "0x70a1";
                     ma_args := Some [JStr "0xother"] |}]))
    as (l' & Heq & Hl').
  - right. vm_compute. discriminate.
  - vm_compute. reflexivity.
  - injection Heq as <-. eexists. split_and!; [reflexivity|reflexivity|done].
Defined.

(** ** A single block *)

Lemma buildBlocks_single fuel cur h r blocks :
  0 < h → h ≤ r →
  Sampling.buildBlocks fuel cur h r = Some blocks → blocks = [cur].
Proof.
  intros Hh Hr. unfold Sampling.buildBlocks.
  destruct fuel as [|[|fuel]]; simpl; [done| |].
  - by rewrite (proj2 (Z.ltb_lt 0 h)) by done.
  - rewrite (proj2 (Z.ltb_lt 0 h)) by done.
    rewrite (proj2 (Z.ltb_ge (0 + r) h)) by lia. simpl.
    intros [= <-]. by rewrite Z.sub_0_r.
Qed.

Lemma flattenArg_single this contractsBatch blocks address k simplify f f' :
  length blocks = 1%nat →
  readField this contractsBatch blocks address k f →
  Sampling.flattenArg simplify f = Ok f' →
  bareValues simplify f'.
Proof.
  intros Hlen Hf. destruct f as [s|l| | |]; simpl in Hf; try done.
  - by intros [= <-].
  - destruct Hf as [_ Hl]. simpl.
    assert (Hbuckets : Forall (λ ma, ∃ sample, ma_values ma = Some [sample]) l).
    { eapply Forall_impl; [exact Hl|]. simpl.
      intros ma (r & item & method & -> & _ & _ & _ & Hms).
      apply addMethodToBatch_result in Hms as (_ & _ & _ & samples & Hs & Hat).
      simpl. rewrite Hs. apply Forall2_length in Hat.
      destruct samples as [|sample [|??]]; simpl in Hat; try lia. eauto. }
    destruct (result_mapM Sampling.flattenVal l) as [l'|] eqn:Hl'; simpl;
      [|done].
    apply result_mapM_Forall2 in Hl'.
    assert (Hbare : Forall (λ ma, ma_values ma = None ∧ is_Some (ma_value ma))
                      l').
    { clear Hl. induction Hl' as [|ma ma' l l' Hma _ IH]; [constructor|].
      apply Forall_cons in Hbuckets as [[sample Hs] Hbuckets].
      constructor; [|by apply IH].
      unfold Sampling.flattenVal in Hma. rewrite Hs in Hma.
      destruct sample as [sample|]; [|done]. injection Hma as <-. simpl. eauto. }
    destruct l' as [|bucket [|bucket' l']].
    + by intros [= <-].
    + apply Forall_cons in Hbare as [[Hvs [v Hv]] _].
      destruct simplify; [|intros [= <-]; simpl; by repeat constructor; eauto].
      rewrite Hv, Hvs. simpl.
      destruct (truthy v) eqn:Htruthy; by intros [= <-].
    + by intros [= <-].
Qed.

(** X15.  With the default options, and whenever [blockHeight] is positive
    and at most [blockResolution], an [execute] reads the current block
    only: every request of the batch is bound to it, and no entry of the
    returned tree holds per-block samples: its buckets carry a [value] and
    no [values], and with [simplifyResponse] a single bucket becomes its
    truthy value or nothing. *)
Theorem single_block_bare_values
    (md5 : ABI → string) (etherscan : string → string → option ABI)
    (toString : jsval → string) (fuel : nat)
    (contractsBatch : list ContractGroup)
    (callOptions : option Sampling.CallOptions) (this : Sampling.Engine)
    (resp : response) (this' : Sampling.Engine) (t : list event) :
  0 < default 1 (callOptions ≫= Sampling.blockHeight) →
  default 1 (callOptions ≫= Sampling.blockHeight)
  ≤ default 1 (callOptions ≫= Sampling.blockResolution) →
  Sampling.execute md5 etherscan toString fuel contractsBatch callOptions this
  = Some (Ok resp, this', t) →
  (∀ c, c ∈ batchAdds t →
        c_block c = Some (getBlockNumber (Sampling.web3 this))) ∧
  (∀ n k f', n ∈ responseNodes resp → n !! k = Some f' →
             bareValues (Sampling.simplifyResponse this) f').
Proof.
  intros Hh Hr Hrun. split.
  - intros c Hc. apply list_elem_of_omap in Hc as (ev & Hev & Hc).
    destruct ev as [| |c'| |]; try done. injection Hc as ->.
    destruct (execute_inv _ _ _ _ _ _ _ _ _ _ Hrun)
      as (blocks & tw & Hblocks & Htw &
          [(e & ? & _)|(_ & summary & -> & Hsum)]); [done|].
    apply (buildBlocks_single _ _ _ _ _ Hh Hr) in Hblocks as ->.
    rewrite !elem_of_app, elem_of_cons, elem_of_app in Hev.
    destruct Hev as [Hev|[Hev|[Hev|[Hev|Hev]]]].
    + rewrite Forall_forall in Htw. by apply Htw in Hev.
    + apply elem_of_concat in Hev as (evs & Hev & Hevs).
      apply elem_of_map in Hevs as (m & -> & Hm).
      apply methods_origin in Hm as (item & method & Hreq & ->).
      apply addMethodToBatch_call in Hev
        as (_ & abiMethod & blockNumber & _ & Hb & ->).
      apply list_elem_of_singleton in Hb as ->. done.
    + discriminate.
    + apply callbacks_are_logs in Hev as (? & ? & ?). discriminate.
    + destruct Hsum as [(? & ? & _ & _ & ->)|(? & _ & _ & ->)].
      * by apply elem_of_nil in Hev.
      * destruct (_ && _); [|by apply elem_of_nil in Hev].
        apply list_elem_of_singleton in Hev. discriminate.
  - intros n k f' Hn Hk.
    destruct (execute_node _ _ _ _ _ _ _ _ _ _ _ Hrun Hn)
      as (blocks & address & Hblocks & Hfields).
    apply (buildBlocks_single _ _ _ _ _ Hh Hr) in Hblocks as ->.
    destruct (Hfields k f' Hk) as (f & Hflat & Hread).
    by apply (flattenArg_single _ _ [getBlockNumber (Sampling.web3 this)]
                _ _ _ _ _ eq_refl Hread Hflat).
Qed.

Lemma single_block_bare_values_witness :
  ∃ resp this' t,
    Sampling.execute Ex.md5 Ex.etherscan Ex.toString 2 ExLegacy.batch None
      (ExSampling.engine true) = Some (Ok resp, this', t) ∧
    length (batchAdds t) = 4%nat ∧
    (∀ c, c ∈ batchAdds t → c_block c = Some 100) ∧
    (∀ n k f', n ∈ responseNodes resp → n !! k = Some f' →
               bareValues true f').
Proof.
  eexists _, _, _. split; [vm_compute; reflexivity|].
  split; [vm_compute; reflexivity|].
  eapply (single_block_bare_values Ex.md5 Ex.etherscan Ex.toString 2
            ExLegacy.batch None (ExSampling.engine true)).
  - vm_compute. reflexivity.
  - vm_compute. discriminate.
  - vm_compute. reflexivity.
Defined.

(** ** The number of methods that is logged *)

Lemma batchAdds_app t1 t2 : batchAdds (t1 ++ t2) = batchAdds t1 ++ batchAdds t2.
Proof. apply omap_app. Qed.

Lemma batchAdds_none t :
  (∀ ev, ev ∈ t → ∀ c, ev ≠ EvBatchAdd c) → batchAdds t = [].
Proof.
  induction t as [|ev t IH]; intros Ht; [done|].
  unfold batchAdds. cbn [omap list_omap]. fold (batchAdds t).
  rewrite IH by (intros ev' Hev'; apply Ht; by right).
  destruct ev as [| |c| |]; try done.
  by destruct (Ht (EvBatchAdd c) (list_elem_of_here _ _) c).
Qed.

Lemma sampling_method_counts this blocks abi address method :
  me_counted (Sampling.addMethodToBatch this blocks abi address method)
  = length (batchAdds
              (me_sync (Sampling.addMethodToBatch this blocks abi address
                          method))).
Proof.
  unfold Sampling.addMethodToBatch.
  destruct (methodExists _ _ _); simpl; [|done].
  destruct (findAbiMethod abi (m_name method)) as [abiMethod|]; simpl; [|done].
  induction blocks as [|blockNumber blocks IH]; simpl; [done|].
  rewrite batchAdds_app, length_app, <- IH. f_equal.
  unfold Sampling.addBlockToBatch. by destruct (requestThrows _ _).
Qed.

Lemma sampling_methods_count this blocks contractsBatch :
  let methods :=
    concat (map group_methods
              (map (Sampling.addContractToBatch this blocks) contractsBatch)) in
  sum_list (map me_counted methods)
  = length (batchAdds (concat (map me_sync methods))).
Proof.
  intros methods.
  assert (Horigin : ∀ m, m ∈ methods →
            me_counted m = length (batchAdds (me_sync m))).
  { intros m Hm. apply methods_origin in Hm as (item & method & _ & ->).
    apply sampling_method_counts. }
  induction methods as [|m methods IH]; simpl; [done|].
  rewrite batchAdds_app, length_app, <- IH, <- Horigin.
  - done.
  - by left.
  - intros m' Hm'. apply Horigin. by right.
Qed.

(** X16.  The summary line of the block-sampling engine is logged only by
    an [execute] that returns, with logging on, and the number of methods it
    reports is the number of requests that were added to the batch: one per
    method and sampled block, not counting the requests that the transport
    refused. *)
Theorem summary_counts_the_requests
    (md5 : ABI → string) (etherscan : string → string → option ABI)
    (toString : jsval → string) (fuel : nat)
    (contractsBatch : list ContractGroup)
    (callOptions : option Sampling.CallOptions) (this : Sampling.Engine)
    (res : result response) (this' : Sampling.Engine) (t : list event)
    (n : nat) :
  Sampling.execute md5 etherscan toString fuel contractsBatch callOptions this
  = Some (res, this', t) →
  EvLog (LogSummary n) ∈ t →
  n = length (batchAdds t) ∧ Sampling.logging this = true ∧
  Sampling.isOk res = true.
Proof.
  intros Hrun Hn.
  destruct (execute_inv _ _ _ _ _ _ _ _ _ _ Hrun)
    as (blocks & tw & _ & Htw & [(e & _ & _ & ->)|(_ & summary & -> & Hsum)]).
  { rewrite Forall_forall in Htw. by apply Htw in Hn. }
  assert (Hcache : batchAdds tw = []).
  { apply batchAdds_none. intros ev Hev c ->.
    rewrite Forall_forall in Htw. by apply Htw in Hev. }
  assert (Hcallbacks : ∀ ev,
            ev ∈ concat (map me_callbacks
                           (concat (map group_methods
                              (map (Sampling.addContractToBatch
                                      (Sampling.setStore (Sampling.store this')
                                         this) blocks) contractsBatch)))) →
            ∃ address name, ev = EvLog (LogCallFailed address name)).
  { intros ev. apply callbacks_are_logs. }
  assert (Hsync : ∀ ev,
            ev ∈ concat (map me_sync
                           (concat (map group_methods
                              (map (Sampling.addContractToBatch
                                      (Sampling.setStore (Sampling.store this')
                                         this) blocks) contractsBatch)))) →
            ∀ k, ev ≠ EvLog (LogSummary k)).
  { intros ev Hev k ->. apply elem_of_concat in Hev as (evs & Hev & Hevs).
    apply elem_of_map in Hevs as (m & -> & Hm).
    apply methods_origin in Hm as (item & method & _ & ->).
    unfold Sampling.addMethodToBatch in Hev.
    destruct (methodExists _ _ _); simpl in Hev; [|by apply elem_of_nil in Hev].
    destruct (findAbiMethod _ _); simpl in Hev; [|by apply elem_of_nil in Hev].
    apply elem_of_concat in Hev as (evs & Hev & Hevs).
    apply elem_of_map in Hevs as (b & -> & Hb).
    apply elem_of_map in Hb as (blockNumber & -> & _).
    unfold Sampling.addBlockToBatch in Hev.
    destruct (requestThrows _ _); simpl in Hev;
      apply list_elem_of_singleton in Hev; discriminate. }
  rewrite !elem_of_app, elem_of_cons, elem_of_app in Hn.
  destruct Hn as [Hn|[Hn|[Hn|[Hn|Hn]]]].
  - rewrite Forall_forall in Htw. by apply Htw in Hn.
  - by destruct (Hsync _ Hn n).
  - discriminate.
  - apply Hcallbacks in Hn as (? & ? & ?). discriminate.
  - destruct Hsum as [(? & ? & _ & _ & ->)|(cpr & _ & Hres & ->)];
      [by apply elem_of_nil in Hn|].
    destruct (Sampling.isOk res) eqn:Hok, (Sampling.logging this) eqn:Hlog;
      simpl in Hn; try (by apply elem_of_nil in Hn).
    apply list_elem_of_singleton in Hn. injection Hn as ->.
    split; [|done].
    rewrite !batchAdds_app, Hcache. simpl. rewrite batchAdds_app.
    rewrite (batchAdds_none (concat (map me_callbacks _))).
    + simpl. rewrite app_nil_r. apply sampling_methods_count.
    + intros ev Hev c ->. apply Hcallbacks in Hev as (? & ? & ?). discriminate.
Qed.

Lemma summary_counts_the_requests_witness :
  ∃ res this' t,
    Sampling.execute Ex.md5 Ex.etherscan Ex.toString 3 ExLegacy.batch
      ExSampling.twoBlocks (ExSampling.engine false) = Some (res, this', t) ∧
    EvLog (LogSummary 8) ∈ t ∧
    8%nat = length (batchAdds t) ∧
    Sampling.logging (ExSampling.engine false) = true ∧
    Sampling.isOk res = true.
Proof.
  eexists _, _, _. split; [vm_compute; reflexivity|].
  assert (Hin : EvLog (LogSummary 8)
                ∈ (default (Threw TypeError, ExSampling.engine false, [])
                     (Sampling.execute Ex.md5 Ex.etherscan Ex.toString 3
                        ExLegacy.batch ExSampling.twoBlocks
                        (ExSampling.engine false))).2).
  { vm_compute.
    repeat first [apply list_elem_of_here|apply list_elem_of_further]. }
  split; [exact Hin|].
  eapply (summary_counts_the_requests Ex.md5 Ex.etherscan Ex.toString 3
            ExLegacy.batch ExSampling.twoBlocks (ExSampling.engine false)).
  - vm_compute. reflexivity.
  - exact Hin.
Defined.

(** ** What the tree of [src/batchCall.js] holds *)

Lemma legacy_method_resolved this block abi address method r :
  me_settled (Legacy.addMethodToBatch this block abi address method)
  = Resolved (Some r) →
  let req := {| c_address := address; c_method := m_name method;
                c_args := default [] (m_args method); c_block := block |} in
  me_sync (Legacy.addMethodToBatch this block abi address method)
  = [EvBatchAdd req] ∧
  rp_err (respond (Legacy.web3 this) req) = None ∧
  r_method r = m_name method ∧
  r_value r = Some (rp_data (respond (Legacy.web3 this) req)) ∧
  r_values r = None ∧ r_args r = m_args method.
Proof.
  unfold Legacy.addMethodToBatch.
  destruct (methodExists _ _ _); simpl; [|done].
  destruct (requestThrows _ _); simpl; [done|].
  destruct (rp_err _); [done|].
  destruct (m_args method) as [args|]; simpl.
  - destruct (findAbiMethod abi (m_name method)); [|done].
    by intros [= <-].
  - by intros [= <-].
Qed.

Lemma method_of_batch (contracts : list (option (list AddressExpansion)))
    addresses a m :
  Some addresses ∈ contracts → a ∈ addresses → m ∈ ae_methods a →
  m ∈ concat (map group_methods contracts).
Proof.
  intros Hgroup Ha Hm. apply elem_of_concat.
  exists (group_methods (Some addresses)). split.
  - unfold group_methods. simpl. apply elem_of_concat.
    exists (ae_methods a). split; [done|]. apply elem_of_map. eauto.
  - apply elem_of_map. eauto.
Qed.

Lemma legacy_address_origin this block contractsBatch addresses a m :
  Some addresses ∈ map (Legacy.addContractToBatch this block) contractsBatch →
  a ∈ addresses → m ∈ ae_methods a →
  ∃ abi method,
    m = Legacy.addMethodToBatch this block abi (ae_address a) method.
Proof.
  intros Hgroup Ha Hm.
  apply elem_of_map in Hgroup as (g & Hexp & Hg).
  unfold Legacy.addContractToBatch in Hexp.
  destruct (objectToIterateOver g) as [items|]; simpl in Hexp; [|done].
  injection Hexp as ->.
  apply elem_of_map in Ha as (item & -> & Hitem).
  unfold Legacy.addAddressToBatch in Hm |- *.
  destruct item as [address|contract]; simpl in *;
    apply elem_of_map in Hm as (method & -> & Hmethod); eauto.
Qed.

(** X17.  What the tree returned by [src/batchCall.js] holds: every
    property of a node is its address, its namespace, or a method entry
    that is a non-empty list of buckets; and every bucket holds the data
    that the transport answered, without an error, to a request of the
    batch for that method on that node's address and with the bucket's
    arguments. *)
Theorem legacy_values_are_answers
    (md5 : ABI → string) (etherscan : string → string → option ABI)
    (toString : jsval → string) (contractsBatch : list ContractGroup)
    (blockNumber : option Z) (this : Legacy.Engine) (resp : response)
    (this' : Legacy.Engine) (t : list event) (n : Node) :
  Legacy.execute md5 etherscan toString contractsBatch blockNumber this
  = (Ok resp, this', t) →
  n ∈ responseNodes resp →
  ∃ address,
    ∀ k f, n !! k = Some f → answeredField (Legacy.web3 this) t address k f.
Proof.
  rewrite legacy_execute_run.
  destruct (warmUp _ _ _ _ _ _) as [[[[]|e0] c'] tw]; [|done]. simpl.
  set (this1 := Legacy.setCache c' this).
  set (contracts := map _ contractsBatch).
  set (methods := concat (map group_methods contracts)).
  destruct (promiseAll (map group_settled contracts)) as [cpr|sync err] eqn:Hall;
    [|by intros [= <- _ _] Hn; apply elem_of_nil in Hn].
  destruct (reduceContractsState cpr) as [st|err] eqn:Hred;
    [|by intros [= <- _ _] Hn; apply elem_of_nil in Hn].
  intros [= <- _ <-] Hn.
  apply response_nodes in Hn as (n0 & Hn0 & Hn).
  pose proof (reduceContractsState_folded (resultsOf cpr) cpr st
                (λ x Hx, Hx) Hred) as Hfolded.
  unfold foldedTree in Hfolded. rewrite Forall_forall in Hfolded.
  destruct (Hfolded n0 Hn0) as [address Hnode].
  exists address. intros k f Hk.
  assert (Hk0 : n0 !! k = Some f).
  { destruct Hn as [->| ->]; [done|]. unfold omitNamespace in Hk.
    by apply lookup_delete_Some in Hk as [_ ?]. }
  specialize (Hnode k f Hk0). destruct f as [s|l| | |]; simpl in *; try done.
  destruct Hnode as [Hne Hl]. split; [done|].
  eapply Forall_impl; [exact Hl|]. simpl.
  intros ma (r & Hr & Hmethod & ->).
  destruct (resultsOf_settled _ _ _ _ Hall Hr)
    as (addresses & a & m & Hgroup & Ha & Hm & Haddr & Hms).
  destruct (legacy_address_origin this1 (boundBlock blockNumber)
              contractsBatch addresses a m Hgroup Ha Hm)
    as (abi & method & ->).
  pose proof (method_of_batch _ _ _ _ Hgroup Ha Hm) as Hin.
  apply legacy_method_resolved in Hms
    as (Hsync & Herr & Hname & Hvalue & Hvalues & Hargs).
  subst address.
  exists {| c_address := ae_address a; c_method := m_name method;
            c_args := default [] (m_args method);
            c_block := boundBlock blockNumber |}.
  split_and!; simpl; [|done|congruence|by rewrite Hargs|done..].
  apply list_elem_of_omap. eexists (EvBatchAdd _). split; [|reflexivity].
  rewrite !elem_of_app. left. right. left.
  apply elem_of_concat. eexists. split; [|apply elem_of_map; eexists;
    split; [symmetry; exact Hsync|exact Hin]].
  apply list_elem_of_here.
Qed.

Lemma legacy_values_are_answers_witness :
  ∃ resp this' t n,
    Legacy.execute Ex.md5 Ex.etherscan Ex.toString ExLegacy.batch None
      (ExLegacy.engine (Ex.web3 Ex.blockOf [])) = (Ok resp, this', t) ∧
    responseNodes resp = [n] ∧
    ∃ address,
      ∀ k f, n !! k = Some f →
             answeredField (Ex.web3 Ex.blockOf []) t address k f.
Proof.
  eexists _, _, _, _. split; [vm_compute; reflexivity|].
  split; [vm_compute; reflexivity|].
  eapply (legacy_values_are_answers Ex.md5 Ex.etherscan Ex.toString
            ExLegacy.batch None (ExLegacy.engine (Ex.web3 Ex.blockOf []))).
  - vm_compute. reflexivity.
  - apply list_elem_of_here.
Defined.

(** ** An engine without a credential *)



